(** * Question bank of the amateur-radio exam trainer (TK/main.py)

    A shallow embedding of the classes of [TK/main.py]: [Question] and
    [QuestionBank], with the record parser ([load_from_file],
    [_parse_question]) and the search engine ([_fuzzy_match],
    [search_by_keyword], [search_by_chapter], [search_by_id]), and the
    state and the callbacks of the application [ExamApp] (loading,
    sequential and examination mode, search, selections, grading).

    Conventions of the embedding.
    - A Python [str] is a Rocq [string]; a character is a code point of
      the Latin-1 range U+0000..U+00FF, held in an [ascii].  On this
      range [str.lower] acts character by character and keeps the
      length, so [s.lower()] and [''.join(c.lower() for c in s)] agree.
    - The two regular expressions of the parser are given by the scanners
      they denote ([findall_J] and [re_search_tag]); their declarative
      meaning is proved below.
    - The functions of [os.path] and [open] are fields of the class [Os].
    - A [for] loop that appends to a result list is a [fold_left]; a [for]
      loop with [break] is a recursion over the remaining items.
    - A callback of [ExamApp] is a function of the state of the
      application; what it asks of a dialog, of a Tk variable or of
      [random] is an argument, and a failing index is [None]. *)

From Stdlib Require Import Ascii String List NArith ZArith Bool Lia.
From stdpp Require Import base decidable option list strings gmap fin_maps sorting.

Local Open Scope string_scope.
Local Open Scope list_scope.

(** [String.append] ([+:+]) is to unfold under [simpl] in this file. *)
Local Arguments String.append : simpl nomatch.

(** ** Characters *)

Module Char.

(** The line feed, ["\n"] in the source. *)
Definition nl : ascii := "010"%char.

Definition between (lo hi n : N) : bool := ((lo <=? n) && (n <=? hi))%N.

(** [c.lower()] on Latin-1: A..Z and the accented capitals U+00C0..U+00DE
    (the multiplication sign U+00D7 apart) move up by 32. *)
Definition lower (c : ascii) : ascii :=
  let n := N_of_ascii c in
  if between 65 90 n || (between 192 222 n && negb (n =? 215)%N)
  then ascii_of_N (n + 32)
  else c.

(** [c.isspace()] on Latin-1: TAB..CR, FS..US, space, NEL and NBSP. *)
Definition isspace (c : ascii) : bool :=
  let n := N_of_ascii c in
  between 9 13 n || between 28 32 n || (n =? 133)%N || (n =? 160)%N.

(** [c in ['l', 'i', '1']] and [c in ['o', '0']] *)
Definition in_chars (c : ascii) (cs : list ascii) : bool :=
  existsb (Ascii.eqb c) cs.

End Char.

(** ** Strings *)

Module Str.

(** [''.join(f(c) for c in s)] for a character function [f] *)
Fixpoint map (f : ascii → ascii) (s : string) : string :=
  match s with
  | EmptyString => EmptyString
  | String c s' => String (f c) (map f s')
  end.

(** [s.lower()] *)
Definition lower (s : string) : string := map Char.lower s.

(** [not s] *)
Definition is_empty (s : string) : bool :=
  match s with EmptyString => true | String _ _ => false end.

(** [t.startswith(p)] *)
Fixpoint starts_with (p t : string) : bool :=
  match p, t with
  | EmptyString, _ => true
  | String _ _, EmptyString => false
  | String a p', String b t' => Ascii.eqb a b && starts_with p' t'
  end.

(** [p in t] *)
Fixpoint contains (p t : string) : bool :=
  starts_with p t ||
  match t with
  | EmptyString => false
  | String _ t' => contains p t'
  end.

(** [s.lstrip()], [s.rstrip()] and [s.strip()] *)
Fixpoint lstrip (s : string) : string :=
  match s with
  | EmptyString => EmptyString
  | String c s' => if Char.isspace c then lstrip s' else s
  end.

Fixpoint rstrip (s : string) : string :=
  match s with
  | EmptyString => EmptyString
  | String c s' =>
      match rstrip s' with
      | EmptyString => if Char.isspace c then EmptyString else String c EmptyString
      | r => String c r
      end
  end.

Definition strip (s : string) : string := rstrip (lstrip s).

(** every character is white space *)
Fixpoint all_space (s : string) : bool :=
  match s with
  | EmptyString => true
  | String c s' => Char.isspace c && all_space s'
  end.

(** no line feed among the characters *)
Fixpoint no_nl (s : string) : bool :=
  match s with
  | EmptyString => true
  | String c s' => negb (Ascii.eqb c Char.nl) && no_nl s'
  end.

(** the rest of [t] after the prefix [p], when [t] starts with [p] *)
Fixpoint strip_prefix (p t : string) : option string :=
  match p, t with
  | EmptyString, _ => Some t
  | String _ _, EmptyString => None
  | String a p', String b t' =>
      if Ascii.eqb a b then strip_prefix p' t' else None
  end.

(** the longest prefix free of line feeds: what a greedy [[^\n]*]
    takes at the start of [s] *)
Fixpoint line_head (s : string) : string :=
  match s with
  | EmptyString => EmptyString
  | String c s' =>
      if Ascii.eqb c Char.nl then EmptyString else String c (line_head s')
  end.

(** [s] is at its end, or at the line feed that ends it: where [$]
    matches without [re.MULTILINE] *)
Definition at_dollar (s : string) : bool :=
  match s with
  | EmptyString => true
  | String c EmptyString => Ascii.eqb c Char.nl
  | String _ (String _ _) => false
  end.

(** [s[1:]] *)
Definition tail (s : string) : string :=
  match s with
  | EmptyString => EmptyString
  | String _ s' => s'
  end.

(** [s[n:]] *)
Fixpoint drop (n : nat) (s : string) : string :=
  match n, s with
  | O, _ => s
  | S _, EmptyString => EmptyString
  | S n', String _ s' => drop n' s'
  end.

(** [s] is at the end of a line: at its end or at a line feed *)
Definition at_line_end (s : string) : bool :=
  match s with
  | EmptyString => true
  | String c _ => Ascii.eqb c Char.nl
  end.

(** [s] without the line feed that ends it, if one does *)
Fixpoint chomp (s : string) : string :=
  match s with
  | EmptyString => EmptyString
  | String c s' => if at_dollar s then EmptyString else String c (chomp s')
  end.

(** [p] occurs in [t]: the meaning of [p in t]. *)
Definition Substring (p t : string) : Prop :=
  ∃ pre post, t = pre +:+ p +:+ post.

End Str.

(** ** The fuzzy matcher *)

(** The local function [normalize_char] of [_fuzzy_match]. *)
Definition normalize_char (c : ascii) : ascii :=
  let c_lower := Char.lower c in
  if Char.in_chars c_lower ["l"; "i"; "1"]%char then "i"%char
  else if Char.in_chars c_lower ["o"; "0"]%char then "0"%char
  else c_lower.

Definition _fuzzy_match (pattern text : string) : bool :=
  if Str.is_empty pattern || Str.is_empty text then false
  else
    let pattern_lower := Str.lower pattern in
    let text_lower := Str.lower text in
    if Str.contains pattern_lower text_lower then true
    else
      let pattern_normalized := Str.map normalize_char pattern in
      let text_normalized := Str.map normalize_char text in
      if Str.contains pattern_normalized text_normalized then true
      else false.


(** ** The two regular expressions of the parser *)

(** The text of a field tag: [[X]]. *)
Definition tag (X : string) : string := "[" +:+ X +:+ "]".

(** [re.findall(r'\[J\](.*?)(?=\[J\]|$)', content, re.DOTALL)].

    [chunks_from s] reads [s] from just behind a matched [[J]]: the lazy
    group [(.*?)] grows one character at a time (a line feed too, under
    [re.DOTALL]) until the lookahead holds, that is until the text goes on
    with [[J]] or [$] matches.  It yields the group and the groups of the
    later matches.  A match that ends on a following [[J]] is followed at
    once by the next match; one that ends at [$] is the last, for at most
    a line feed is left. *)
Fixpoint chunks_from (s : string) : string * list string :=
  match s with
  | EmptyString => (EmptyString, [])
  | String c s' =>
      if Str.starts_with (tag "J") s then
        match s' with
        | String _ (String _ r) =>
            let '(chunk, more) := chunks_from r in (EmptyString, chunk :: more)
        | _ => (EmptyString, [])
        end
      else if Str.at_dollar s then (EmptyString, [])
      else let '(chunk, more) := chunks_from s' in (String c chunk, more)
  end.

(** The scan for the first [[J]]; what stands before it is passed over. *)
Fixpoint findall_J (content : string) : list string :=
  match content with
  | EmptyString => []
  | String _ s' =>
      if Str.starts_with (tag "J") content then
        match s' with
        | String _ (String _ r) =>
            let '(chunk, more) := chunks_from r in chunk :: more
        | _ => []
        end
      else findall_J s'
  end.

(** [re.match(rf'\[{X}\]([^\n]+)', s)]: the group when the pattern
    matches at the start of [s].  The greedy [[^\n]+] takes the whole rest
    of the line and needs one character at least. *)
Definition match_tag_at (X s : string) : option string :=
  match Str.strip_prefix (tag X) s with
  | Some rest =>
      match Str.line_head rest with
      | EmptyString => None
      | group => Some group
      end
  | None => None
  end.

(** [re.search(rf'\[{X}\]([^\n]+)', text)], as [group(1)] of the match:
    the leftmost position at which the pattern matches. *)
Fixpoint re_search_tag (X text : string) : option string :=
  match match_tag_at X text with
  | Some group => Some group
  | None =>
      match text with
      | EmptyString => None
      | String _ text' => re_search_tag X text'
      end
  end.

(** ** The operating system *)

(** What the parser asks of [os.path] and of [open]. *)
Class Os := {
  (** [os.path.exists] *)
  path_exists : string → bool;
  (** [os.path.abspath] *)
  path_abspath : string → string;
  (** [os.path.join(a, b)]; [os.path.join(a, b, c)] is
      [os.path.join(os.path.join(a, b), c)] *)
  path_join : string → string → string;
  (** [os.path.splitext] *)
  path_splitext : string → string * string;
  (** [os.path.dirname] *)
  path_dirname : string → string;
  (** [__file__] *)
  module_file : string;
  (** [open(filepath, 'r', encoding='utf-8').read()]; [None] when it
      raises (the file is missing or cannot be read or decoded) *)
  read_text : string → option string
}.

(** ** class Question *)

Record Question := mkQuestion {
  j_id : string;
  p_id : string;
  i_id : string;
  question : string;
  answer : string;
  options : gmap string string;
  image_path : option string
}.

(** [Question.__init__] *)
Definition Question_init : Question :=
  {| j_id := ""; p_id := ""; i_id := ""; question := ""; answer := "";
     options := ∅; image_path := None |}.

Definition set_j_id (v : string) (q : Question) : Question :=
  mkQuestion v (p_id q) (i_id q) (question q) (answer q) (options q) (image_path q).
Definition set_p_id (v : string) (q : Question) : Question :=
  mkQuestion (j_id q) v (i_id q) (question q) (answer q) (options q) (image_path q).
Definition set_i_id (v : string) (q : Question) : Question :=
  mkQuestion (j_id q) (p_id q) v (question q) (answer q) (options q) (image_path q).
Definition set_question (v : string) (q : Question) : Question :=
  mkQuestion (j_id q) (p_id q) (i_id q) v (answer q) (options q) (image_path q).
Definition set_answer (v : string) (q : Question) : Question :=
  mkQuestion (j_id q) (p_id q) (i_id q) (question q) v (options q) (image_path q).
Definition set_option (k v : string) (q : Question) : Question :=
  mkQuestion (j_id q) (p_id q) (i_id q) (question q) (answer q)
             (<[k := v]> (options q)) (image_path q).
Definition set_image_path (v : option string) (q : Question) : Question :=
  mkQuestion (j_id q) (p_id q) (i_id q) (question q) (answer q) (options q) v.

(** ** class QuestionBank *)

Record QuestionBank := mkQuestionBank {
  questions : list Question;
  photo_dir : string
}.

(** [QuestionBank.__init__] *)
Definition QuestionBank_init : QuestionBank :=
  {| questions := []; photo_dir := "" |}.

Definition set_questions (v : list Question) (self : QuestionBank) : QuestionBank :=
  mkQuestionBank v (photo_dir self).
Definition set_photo_dir (v : string) (self : QuestionBank) : QuestionBank :=
  mkQuestionBank (questions self) v.

Section Parser.

Context `{os : Os}.

(** The extensions tried for a missing picture, in the order of the
    source. *)
Definition image_extensions : list string :=
  [".jpg"; ".png"; ".jpeg"; ".JPG"; ".PNG"; ".JPEG"].

(** The loop [for ext in [...]] of [_parse_question]: the first
    alternative path that exists replaces [image_path] and ends the
    loop. *)
Fixpoint try_extensions (abs_photo_dir base_name : string)
    (exts : list string) (image_path : string) : string :=
  match exts with
  | [] => image_path
  | ext :: exts' =>
      let alt_path := path_join abs_photo_dir (base_name +:+ ext) in
      if path_exists alt_path then alt_path
      else try_extensions abs_photo_dir base_name exts' image_path
  end.

(** The branch [if self.photo_dir:] below [if f_match:]: the value
    given to [q.image_path]. *)
Definition resolve_image (photo_dir image_filename : string) : option string :=
  let abs_photo_dir := path_abspath photo_dir in
  let image_path := path_join abs_photo_dir image_filename in
  let image_path :=
    if negb (path_exists image_path) then
      let base_name := fst (path_splitext image_filename) in
      try_extensions abs_photo_dir base_name image_extensions image_path
    else image_path in
  if path_exists image_path then Some (path_abspath image_path) else None.

(** One step of the loop [for option in ['A', 'B', 'C', 'D']]. *)
Definition parse_option (text : string) (q : Question) (option : string) : Question :=
  match re_search_tag option text with
  | Some group => set_option option (Str.strip group) q
  | None => q
  end.

(** [with_match m f q]: [if m: q.<field> = f(m.group(1))] *)
Definition with_match (m : option string) (f : string → Question → Question)
    (q : Question) : Question :=
  match m with
  | Some group => f group q
  | None => q
  end.

(** [QuestionBank._parse_question]; [self] only gives [self.photo_dir]. *)
Definition _parse_question (self : QuestionBank) (text : string) : option Question :=
  let q := Question_init in
  let q := with_match (re_search_tag "J" text) (λ g, set_j_id (Str.strip g)) q in
  let q := with_match (re_search_tag "P" text) (λ g, set_p_id (Str.strip g)) q in
  let q := with_match (re_search_tag "I" text) (λ g, set_i_id (Str.strip g)) q in
  let q := with_match (re_search_tag "Q" text) (λ g, set_question (Str.strip g)) q in
  let q := with_match (re_search_tag "T" text) (λ g, set_answer (Str.strip g)) q in
  let q := fold_left (parse_option text) ["A"; "B"; "C"; "D"] q in
  let q :=
    with_match (re_search_tag "F" text)
      (λ g q,
         let image_filename := Str.strip g in
         if negb (Str.is_empty (photo_dir self))
         then set_image_path (resolve_image (photo_dir self) image_filename) q
         else set_image_path None q) q in
  if negb (Str.is_empty (question q)) then Some q else None.

(** The [else] branch at the head of [load_from_file]: the directory
    [photo] next to the file, else [TK/photo] next to the program, else
    none. *)
Definition infer_photo_dir (filepath : string) : string :=
  let file_dir := path_dirname filepath in
  let potential_photo_dir := path_join file_dir "photo" in
  if path_exists potential_photo_dir then potential_photo_dir
  else
    let base_dir := path_dirname (path_abspath module_file) in
    let tk_photo_dir := path_join (path_join base_dir "TK") "photo" in
    if path_exists tk_photo_dir then tk_photo_dir else "".

(** [if photo_dir:] holds for a string that is not empty; [None], the
    default of the parameter, and [""] take the [else] branch. *)
Definition choose_photo_dir (filepath : string) (photo_dir : option string) : string :=
  match photo_dir with
  | Some d => if negb (Str.is_empty d) then d else infer_photo_dir filepath
  | None => infer_photo_dir filepath
  end.

(** One step of the loop [for match in matches]. *)
Definition load_step (self : QuestionBank) (match_ : string) : QuestionBank :=
  match _parse_question self match_ with
  | Some question => set_questions (questions self ++ [question]) self
  | None => self
  end.

(** [QuestionBank.load_from_file]: the bank after the call and the
    value returned.  The [except] branch is taken when the file cannot
    be read; [self.photo_dir] is set by then, [self.questions] is not. *)
Definition load_from_file (self : QuestionBank) (filepath : string)
    (photo_dir : option string) : QuestionBank * bool :=
  let self := set_photo_dir (choose_photo_dir filepath photo_dir) self in
  match read_text filepath with
  | None => (self, false)
  | Some content =>
      let matches := findall_J content in
      let self := set_questions [] self in
      let self := fold_left load_step matches self in
      (self, Nat.ltb 0 (length (questions self)))
  end.

End Parser.

(** ** The three searches *)

(** [q.options.values()] *)
Definition option_values (q : Question) : list string :=
  (map_to_list (options q)).*2.

(** The test of the loop of [search_by_keyword]. *)
Definition keyword_test (keyword : string) (q : Question) : bool :=
  _fuzzy_match keyword (question q) ||
  _fuzzy_match keyword (j_id q) ||
  _fuzzy_match keyword (p_id q) ||
  existsb (λ opt, _fuzzy_match keyword opt) (option_values q).

(** [results = []; for q in qs: if test(q): results.append(q)] *)
Definition collect (test : Question → bool) (qs : list Question) : list Question :=
  fold_left (λ results q, if test q then results ++ [q] else results) qs [].

Definition search_by_keyword (self : QuestionBank) (keyword : string) : list Question :=
  if Str.is_empty keyword then questions self
  else
    let keyword := Str.strip keyword in
    collect (keyword_test keyword) (questions self).

Definition search_by_chapter (self : QuestionBank) (chapter : string) : list Question :=
  if Str.is_empty chapter then questions self
  else
    let chapter := Str.strip chapter in
    collect (λ q, _fuzzy_match chapter (p_id q)) (questions self).

Definition search_by_id (self : QuestionBank) (question_id : string) : list Question :=
  if Str.is_empty question_id then questions self
  else
    let question_id := Str.strip question_id in
    collect (λ q, _fuzzy_match question_id (i_id q)) (questions self).

(** ** A file system for the examples *)

Module Example.

(** A POSIX-like [os.path] over a fixed list of existing paths, with
    absolute paths throughout: [abspath] changes nothing, [join] puts a
    slash between its parts, [splitext] cuts a plain file name at its
    last dot, the dots it begins with apart. *)
Fixpoint cut_ext (s : string) : option (string * string) :=
  match s with
  | EmptyString => None
  | String c s' =>
      match cut_ext s' with
      | Some (base, ext) => Some (String c base, ext)
      | None => if Ascii.eqb c "."%char then Some (EmptyString, s) else None
      end
  end.

Fixpoint splitext (s : string) : string * string :=
  match s with
  | EmptyString => (EmptyString, EmptyString)
  | String c s' =>
      if Ascii.eqb c "."%char then
        let '(base, ext) := splitext s' in (String c base, ext)
      else
        match cut_ext s' with
        | Some (base, ext) => (String c base, ext)
        | None => (s, EmptyString)
        end
  end.

Definition os_with (files : list string) (contents : string → option string) : Os :=
  {| path_exists p := bool_decide (p ∈ files);
     path_abspath p := p;
     path_join d f := d +:+ "/" +:+ f;
     path_splitext := splitext;
     path_dirname _ := "/bank";
     module_file := "/app/main.py";
     read_text := contents |}.

Definition nl : string := String Char.nl EmptyString.

(** The record of the scenario of the specification. *)
Definition sample : string :=
  "[J]Q001" +:+ nl +:+ "[P]1.2.1" +:+ nl +:+ "[I]MC" +:+ nl +:+
  "[Q]What is X?" +:+ nl +:+ "[A]OptA" +:+ nl +:+ "[B]OptB" +:+ nl +:+
  "[T]A" +:+ nl.

(** A bank of one record with a picture. *)
Definition pictured : string :=
  "[J]7" +:+ nl +:+ "[Q]Which antenna?" +:+ nl +:+ "[F]img1.bmp" +:+ nl.

(** A bank in which [[J]] stands inside a line. *)
Definition inline_J : string :=
  "[J]1" +:+ nl +:+ "[Q]a [J]2" +:+ nl +:+ "[Q]b" +:+ nl.

(** A bank of which the first record has no question body. *)
Definition bodiless : string :=
  "[J]1" +:+ nl +:+ "[P]1.1" +:+ nl +:+ "[J]2" +:+ nl +:+ "[Q]b" +:+ nl.

(** The files of the examples: the four banks and a file without
    records. *)
Definition example_files (p : string) : option string :=
  if String.eqb p "/bank/tk.txt" then Some sample
  else if String.eqb p "/bank/empty.txt" then Some "no record here"
  else if String.eqb p "/bank/pictured.txt" then Some pictured
  else if String.eqb p "/bank/inline.txt" then Some inline_J
  else if String.eqb p "/bank/bodiless.txt" then Some bodiless
  else None.

(** A system with the media directory and no picture in it, and one with
    the pictures [img1.PNG] and [img1.png]. *)
Definition sample_os : Os := os_with ["/media"] example_files.

Definition png_os : Os :=
  os_with ["/media"; "/media/img1.PNG"; "/media/img1.png"] example_files.

(** One in which the picture is there under the name of the record. *)
Definition bmp_os : Os :=
  os_with ["/media"; "/media/img1.png"; "/media/img1.bmp"] example_files.

(** The record that the parser makes of [sample]. *)
Definition sample_question : Question :=
  {| j_id := ""; p_id := "1.2.1"; i_id := "MC"; question := "What is X?";
     answer := "A"; options := {[ "A" := "OptA"; "B" := "OptB" ]};
     image_path := None |}.

Definition sample_bank : QuestionBank :=
  {| questions := [sample_question]; photo_dir := "/media" |}.

End Example.

(** ** Notions of the statements *)

(** The second step of [normalize_char], on a lower-cased character. *)
Definition confusable (c : ascii) : ascii :=
  if Char.in_chars c ["l"; "i"; "1"]%char then "i"%char
  else if Char.in_chars c ["o"; "0"]%char then "0"%char
  else c.

(** A record is a hit of a keyword: the keyword matches the question
    body, the public number, the chapter code or the text of an option. *)
Definition KeywordHit (keyword : string) (q : Question) : Prop :=
  _fuzzy_match keyword (question q) = true ∨
  _fuzzy_match keyword (j_id q) = true ∨
  _fuzzy_match keyword (p_id q) = true ∨
  map_Exists (λ _ opt, _fuzzy_match keyword opt = true) (options q).

Global Instance KeywordHit_dec keyword q : Decision (KeywordHit keyword q).
Proof. unfold KeywordHit. apply _. Defined.

(** The query is empty or holds white space only. *)
Definition Blank (query : string) : Prop := Str.all_space query = true.

(** The pattern [\[X\]([^\n]+)] matches at the start of [rest] with the
    group [g]: [rest] is [[X]], then [g], then the end of the line, and
    [g] is not empty and has no line feed. *)
Definition TagMatch (X g rest : string) : Prop :=
  ∃ post, rest = tag X +:+ g +:+ post ∧
          g ≠ "" ∧ Str.no_nl g = true ∧ Str.at_line_end post = true.

(** [g] is the group of the leftmost match of the pattern in [text]. *)
Definition FirstTagMatch (X g text : string) : Prop :=
  ∃ pre rest,
    text = pre +:+ rest ∧ TagMatch X g rest ∧
    ∀ pre' rest' g',
      text = pre' +:+ rest' → TagMatch X g' rest' →
      (String.length pre ≤ String.length pre')%nat.

(** The pattern matches nowhere in [text]. *)
Definition NoTagMatch (X text : string) : Prop :=
  ∀ pre rest g, text = pre +:+ rest → ¬ TagMatch X g rest.

(** The value of a scalar field: the trimmed group, or the default [""]
    of [Question.__init__]. *)
Definition field_value (X text : string) : string :=
  default "" (Str.strip <$> re_search_tag X text).

(** [[J]] does not occur in [s]. *)
Definition NoJ (s : string) : Prop := Str.contains (tag "J") s = false.

(** The text of the records with the bodies [cs]: each body behind its
    [[J]]. *)
Fixpoint records_text (cs : list string) : string :=
  match cs with
  | [] => ""
  | c :: cs' => tag "J" +:+ c +:+ records_text cs'
  end.

(** The option letters, and the options that the loop over them builds. *)
Definition option_letters : list string := ["A"; "B"; "C"; "D"].

Definition parsed_options (text : string) : gmap string string :=
  fold_left
    (λ m letter,
       match re_search_tag letter text with
       | Some g => <[letter := Str.strip g]> m
       | None => m
       end)
    option_letters ∅.

Section Parsed.

Context `{os : Os}.

(** The picture of a record: none without an [F] value or without a
    media directory, else what [resolve_image] finds. *)
Definition parsed_image (self : QuestionBank) (text : string) : option string :=
  g ← re_search_tag "F" text;
  if Str.is_empty (photo_dir self) then None
  else resolve_image (photo_dir self) (Str.strip g).

(** The record that [_parse_question] builds before it looks at
    [q.question]. *)
Definition parsed (self : QuestionBank) (text : string) : Question :=
  {| j_id := field_value "J" text;
     p_id := field_value "P" text;
     i_id := field_value "I" text;
     question := field_value "Q" text;
     answer := field_value "T" text;
     options := parsed_options text;
     image_path := parsed_image self text |}.

End Parsed.

(** The scalar fields of a record, each with its tag. *)
Definition scalar_fields : list (string * (Question → string)) :=
  [("J", j_id); ("P", p_id); ("I", i_id); ("Q", question); ("T", answer)].

(** ** The rules in the words of the specification

    The splitting rule and the field extraction rule of the
    specification work on lines.  They are written down here as the
    specification words them, to be compared with the two patterns of the
    source. *)

Module Spec.

(** The lines of a text, as [text.split('\n')] gives them. *)
Fixpoint lines (s : string) : list string :=
  match s with
  | EmptyString => [EmptyString]
  | String c s' =>
      if Ascii.eqb c Char.nl then EmptyString :: lines s'
      else match lines s' with
           | l :: ls => String c l :: ls
           | [] => [String c EmptyString]
           end
  end.

(** The lines up to the next record header. *)
Fixpoint body_lines (ls : list string) : list string :=
  match ls with
  | [] => []
  | l :: ls' => if Str.starts_with (tag "J") l then [] else l :: body_lines ls'
  end.

(** The splitting rule: a line beginning with [[J]] opens a record, which
    runs up to the next such line; the lines before the first are
    dropped. *)
Fixpoint records (ls : list string) : list (list string) :=
  match ls with
  | [] => []
  | l :: ls' =>
      if Str.starts_with (tag "J") l
      then (l :: body_lines ls') :: records ls'
      else records ls'
  end.

(** The field extraction rule: the first line of the form [[X]rest]
    gives the value, [rest] trimmed; no such line, no value. *)
Definition field (X chunk : string) : option string :=
  head (omap (λ l, Str.strip <$> Str.strip_prefix (tag X) l) (lines chunk)).

(** The text of some lines: ['\n'.join(ls)]. *)
Fixpoint join_lines (ls : list string) : string :=
  match ls with
  | [] => EmptyString
  | l :: ls' =>
      match ls' with
      | [] => l
      | _ :: _ => l +:+ String Char.nl (join_lines ls')
      end
  end.

(** The text of a record behind its [[J]]. *)
Definition record_body (r : list string) : string :=
  Str.drop 3 (join_lines r).

(** The chunks of the records: a record gives its text behind the [[J]]
    with the line feed that ends it; the last record gives its text to
    the end of the content, less the line feed that ends it. *)
Fixpoint chunk_texts (rs : list (list string)) : list string :=
  match rs with
  | [] => []
  | r :: rs' =>
      match rs' with
      | [] => [Str.chomp (record_body r)]
      | _ :: _ => (record_body r +:+ String Char.nl EmptyString) :: chunk_texts rs'
      end
  end.

(** The chunks of a content by the splitting rule. *)
Definition chunks (content : string) : list string :=
  chunk_texts (records (lines content)).

(** A content is well formed for the splitting rule: in each of its
    lines [[J]] stands at the start or nowhere. *)
Definition JAtLineStart (content : string) : Prop :=
  Forall (λ l, NoJ (Str.tail l)) (lines content).

(** The same chunks, read off the lines one by one: [chunks_out] looks
    for the first header, [chunks_in v] goes on in a record of which [v]
    was read. *)
Fixpoint chunks_in (v : string) (ls : list string) : list string :=
  match ls with
  | [] => [Str.chomp v]
  | l :: ls' =>
      if Str.starts_with (tag "J") l
      then (v +:+ String Char.nl EmptyString) :: chunks_in (Str.drop 3 l) ls'
      else chunks_in (v +:+ String Char.nl l) ls'
  end.

Fixpoint chunks_out (ls : list string) : list string :=
  match ls with
  | [] => []
  | l :: ls' =>
      if Str.starts_with (tag "J") l then chunks_in (Str.drop 3 l) ls'
      else chunks_out ls'
  end.

(** A chunk is well formed for the tag X: in each of its lines [[X]]
    stands at the start or nowhere, and no line is the bare tag. *)
Definition TagAtLineStart (X chunk : string) : Prop :=
  Forall (λ l, Str.contains (tag X) (Str.tail l) = false ∧ l ≠ tag X)
         (lines chunk).

End Spec.

(** ** class ExamApp

    The state of [ExamApp] behind its widgets, and its callbacks as
    functions of this state.  What a callback asks of a dialog, of a Tk
    variable or of [random] is an argument of the function; what it only
    writes to a widget is left out.  [exam_start_time] and the score, a
    time and a float, are left out too.  [None] is an [IndexError]. *)

Record ExamApp := mkExamApp {
  bank : QuestionBank;
  current_questions : list Question;
  current_index : nat;
  exam_mode : bool;
  exam_answers : gmap nat (list string);
  search_mode : bool;
  before_search_state : option (list Question * nat)
}.

(** [ExamApp.__init__] *)
Definition ExamApp_init : ExamApp :=
  {| bank := QuestionBank_init; current_questions := []; current_index := 0;
     exam_mode := false; exam_answers := ∅; search_mode := false;
     before_search_state := None |}.

(** [random.sample(population, k)] for [k] within the population: [k]
    items from places of the population that are all different.  Which
    ones depends on the state [rng] of the generator at the call. *)
Class Sampler := {
  random_sample : nat → list Question → nat → list Question;
  random_sample_length rng population k :
    (k ≤ length population)%nat → length (random_sample rng population k) = k;
  random_sample_submseteq rng population k :
    (k ≤ length population)%nat → random_sample rng population k ⊆+ population
}.

(** What [on_option_selected] reads of [self.option_vars]: whether a key
    is there, the truth of [self.option_vars[key].get()], and the value of
    the shared [radio_var] when there is one. *)
Record OptionVars := mkOptionVars {
  in_option_vars : string → bool;
  option_var_get : string → bool;
  radio_var_get : option string
}.

(** [list(s)]: the characters of a string, each a string *)
Fixpoint chars (s : string) : list string :=
  match s with
  | EmptyString => []
  | String c s' => String c EmptyString :: chars s'
  end.

(** [sorted(l)] for strings, which Python compares by code points *)
Definition sorted (l : list string) : list string := merge_sort String.le l.

(** [''.join(l)] *)
Definition join (l : list string) : string := foldr String.append "" l.

(** [l.remove(x)] for an [x] of [l]: the first one goes *)
Fixpoint list_remove (x : string) (l : list string) : list string :=
  match l with
  | [] => []
  | y :: l' => if decide (x = y) then l' else y :: list_remove x l'
  end.

(** [''.join(sorted(self.exam_answers.get(i, [])))] *)
Definition user_answer (self : ExamApp) (i : nat) : string :=
  join (sorted (default [] (exam_answers self !! i))).

(** [''.join(sorted(question.answer))] *)
Definition correct_answer (question : Question) : string :=
  join (sorted (chars (answer question))).

(** The three branches of the loop of [submit_exam]. *)
Inductive Verdict := Unanswered | Correct | Wrong.

Global Instance Verdict_eq_dec : EqDecision Verdict.
Proof. solve_decision. Defined.

Definition grade (self : ExamApp) (i : nat) (question : Question) : Verdict :=
  let user_answer := user_answer self i in
  let correct_answer := correct_answer question in
  if Str.is_empty user_answer then Unanswered
  else if String.eqb user_answer correct_answer then Correct
  else Wrong.

(** The counters of [submit_exam]. *)
Record Tally := mkTally {
  total : nat;
  correct : nat;
  wrong : nat;
  unanswered : nat
}.

(** One round of [for i, question in enumerate(self.current_questions)]
    in [submit_exam]. *)
Definition tally_step (self : ExamApp) (t : Tally) (iq : nat * Question) : Tally :=
  match grade self iq.1 iq.2 with
  | Unanswered => mkTally (total t) (correct t) (wrong t) (unanswered t + 1)
  | Correct => mkTally (total t) (correct t + 1) (wrong t) (unanswered t)
  | Wrong => mkTally (total t) (correct t) (wrong t + 1) (unanswered t)
  end.

(** [enumerate(l)] *)
Definition enumerate {A} (l : list A) : list (nat * A) := imap pair l.

(** The counting of [submit_exam]. *)
Definition tally (self : ExamApp) : Tally :=
  fold_left (tally_step self) (enumerate (current_questions self))
            (mkTally (length (current_questions self)) 0 0 0).

(** [ExamApp.show_wrong_questions], up to the window: the list
    [wrong_questions]; the message "all correct" is shown when it is
    empty. *)
Definition show_wrong_questions (self : ExamApp)
    : list (nat * Question * string * string) :=
  fold_left
    (λ wrong_questions iq,
       let user_answer := user_answer self iq.1 in
       let correct_answer := correct_answer iq.2 in
       if Str.is_empty user_answer || negb (String.eqb user_answer correct_answer)
       then wrong_questions ++ [(iq.1, iq.2, user_answer, correct_answer)]
       else wrong_questions)
    (enumerate (current_questions self)) [].

(** [ExamApp.submit_exam]: the state after it and the counters it shows;
    nothing outside an examination.  Whether the user looks at the wrong
    answers changes no state. *)
Definition submit_exam (self : ExamApp) : ExamApp * option Tally :=
  if negb (exam_mode self) then (self, None)
  else
    (mkExamApp (bank self) (current_questions self) (current_index self)
               false (exam_answers self) (search_mode self)
               (before_search_state self),
     Some (tally self)).

(** [ExamApp.show_answer]: the answer shown and, in an examination with a
    stored choice, the choice and whether it is marked right. *)
Definition show_answer (self : ExamApp) : option (string * option (string * bool)) :=
  match current_questions self !! current_index self with
  | None => None
  | Some question =>
      if exam_mode self && bool_decide (current_index self ∈ dom (exam_answers self))
      then
        let user_answer := user_answer self (current_index self) in
        let correct_answer := correct_answer question in
        Some (answer question, Some (user_answer, String.eqb user_answer correct_answer))
      else Some (answer question, None)
  end.

(** [ExamApp.prev_question] *)
Definition prev_question (self : ExamApp) : ExamApp :=
  if Nat.ltb 0 (current_index self) then
    mkExamApp (bank self) (current_questions self) (current_index self - 1)
              (exam_mode self) (exam_answers self) (search_mode self)
              (before_search_state self)
  else self.

(** [ExamApp.next_question]; [submit] is the answer to the question
    whether to hand in, asked at the last question of an examination. *)
Definition next_question (self : ExamApp) (submit : bool) : ExamApp * option Tally :=
  if (Z.of_nat (current_index self) <? Z.of_nat (length (current_questions self)) - 1)%Z
  then
    (mkExamApp (bank self) (current_questions self) (current_index self + 1)
               (exam_mode self) (exam_answers self) (search_mode self)
               (before_search_state self),
     None)
  else if exam_mode self then
    if submit then submit_exam self else (self, None)
  else (self, None).

(** [ExamApp.start_sequential_mode] *)
Definition start_sequential_mode (self : ExamApp) : ExamApp :=
  match questions (bank self) with
  | [] => self
  | _ :: _ =>
      mkExamApp (bank self) (questions (bank self)) 0 false (exam_answers self)
                false (before_search_state self)
  end.

(** The storing of a choice in [on_option_selected]. *)
Definition set_exam_answer (i : nat) (l : list string) (self : ExamApp) : ExamApp :=
  mkExamApp (bank self) (current_questions self) (current_index self)
            (exam_mode self) (<[i := l]> (exam_answers self)) (search_mode self)
            (before_search_state self).

(** [ExamApp.on_option_selected] *)
Definition on_option_selected (vars : OptionVars) (self : ExamApp) (opt : string)
    : option ExamApp :=
  if exam_mode self then
    question ← current_questions self !! current_index self;
    if Nat.ltb 1 (String.length (answer question)) then
      let self :=
        if bool_decide (current_index self ∉ dom (exam_answers self))
        then set_exam_answer (current_index self) [] self
        else self in
      let chosen := default [] (exam_answers self !! current_index self) in
      if in_option_vars vars opt then
        if option_var_get vars opt then
          if bool_decide (opt ∉ chosen)
          then Some (set_exam_answer (current_index self) (chosen ++ [opt]) self)
          else Some self
        else
          if bool_decide (opt ∈ chosen)
          then Some (set_exam_answer (current_index self) (list_remove opt chosen) self)
          else Some self
      else Some self
    else
      match radio_var_get vars with
      | Some selected =>
          Some (set_exam_answer (current_index self)
                  (if Str.is_empty selected then [] else [selected]) self)
      | None => Some self
      end
  else Some self.

(** [ExamApp.clear_selection]: the choice stored for the question goes. *)
Definition clear_selection (self : ExamApp) : option ExamApp :=
  _ ← match current_questions self with
      | [] => Some None
      | _ :: _ => Some <$> current_questions self !! current_index self
      end;
  if exam_mode self && bool_decide (current_index self ∈ dom (exam_answers self))
  then
    Some (mkExamApp (bank self) (current_questions self) (current_index self)
                    (exam_mode self) (delete (current_index self) (exam_answers self))
                    (search_mode self) (before_search_state self))
  else Some self.

(** [ExamApp.back_from_search] *)
Definition back_from_search (self : ExamApp) : ExamApp :=
  match before_search_state self with
  | Some (saved_questions, saved_index) =>
      if search_mode self then
        mkExamApp (bank self) saved_questions saved_index (exam_mode self)
                  (exam_answers self) false (before_search_state self)
      else start_sequential_mode self
  | None => start_sequential_mode self
  end.

(** [do_search] of [show_search_dialog]: [text] is what stands in the
    entry, [search_type] the way of searching that is ticked. *)
Definition do_search (self : ExamApp) (text search_type : string) : ExamApp :=
  let search_text := Str.strip text in
  if Str.is_empty search_text then self
  else
    let results :=
      if String.eqb search_type "keyword" then search_by_keyword (bank self) search_text
      else if String.eqb search_type "chapter" then search_by_chapter (bank self) search_text
      else if String.eqb search_type "id" then search_by_id (bank self) search_text
      else [] in
    match results with
    | [] => self
    | _ :: _ =>
        mkExamApp (bank self) results 0 false (exam_answers self) true
                  (if negb (search_mode self)
                   then Some (current_questions self, current_index self)
                   else before_search_state self)
    end.

Section App.

Context `{os : Os} `{sampler : Sampler}.

(** [confirm_exam] of [start_exam_mode]: [entry] is [int(count_var.get())],
    [None] when it raises [ValueError]; [rng] is the state of the random
    generator. *)
Definition confirm_exam (self : ExamApp) (entry : option Z) (rng : nat) : ExamApp :=
  match entry with
  | None => self
  | Some count =>
      if ((count <=? 0) || (Z.of_nat (length (questions (bank self))) <? count))%Z
      then self
      else
        mkExamApp (bank self)
                  (random_sample rng (questions (bank self)) (Z.to_nat count))
                  0 true ∅ false (before_search_state self)
  end.

(** [tk_dir] and [photo_dir] of [load_question_bank] *)
Definition tk_dir : string :=
  path_join (path_dirname (path_abspath module_file)) "TK".

Definition tk_photo_dir : string := path_join tk_dir "photo".

(** The two branches behind [if self.bank.load_from_file(...)] in
    [confirm_load]; the bank is the object that the load has changed. *)
Definition after_load (self : ExamApp) (r : QuestionBank * bool) : ExamApp :=
  if r.2 then
    mkExamApp r.1 (questions r.1) 0 false (exam_answers self) false
              (before_search_state self)
  else
    mkExamApp r.1 (current_questions self) (current_index self) (exam_mode self)
              (exam_answers self) (search_mode self) (before_search_state self).

(** [confirm_load] of [load_question_bank]: [bank_file] is the bank that
    is ticked, [chosen] the path that the file dialog gives for a bank of
    the user's own, empty when the dialog is closed.  [tk_exists], looked
    up when the dialog opens, is [path_exists tk_dir]: the file system is
    the same throughout. *)
Definition confirm_load (self : ExamApp) (bank_file chosen : string) : ExamApp :=
  if Str.is_empty bank_file then self
  else if String.eqb bank_file "CUSTOM" then
    let filepath := chosen in
    if negb (Str.is_empty filepath) then
      let file_dir := path_dirname filepath in
      let potential_photo_dir := path_join file_dir "photo" in
      let potential_photo_dir :=
        if negb (path_exists potential_photo_dir) && path_exists tk_dir
        then tk_photo_dir else potential_photo_dir in
      after_load self (load_from_file (bank self) filepath (Some potential_photo_dir))
    else self
  else
    if negb (path_exists tk_dir) then self
    else
      let filepath := path_join tk_dir bank_file in
      if negb (path_exists filepath) then self
      else after_load self (load_from_file (bank self) filepath (Some tk_photo_dir)).

(** The callbacks that the user can set off. *)
Inductive Event :=
  | ConfirmLoad (bank_file chosen : string)
  | StartSequential
  | ConfirmExam (entry : option Z) (rng : nat)
  | DoSearch (text search_type : string)
  | BackFromSearch
  | OptionSelected (vars : OptionVars) (opt : string)
  | ClearSelection
  | PrevQuestion
  | NextQuestion (submit : bool)
  | SubmitExam.

Definition step (self : ExamApp) (e : Event) : option ExamApp :=
  match e with
  | ConfirmLoad bank_file chosen => Some (confirm_load self bank_file chosen)
  | StartSequential => Some (start_sequential_mode self)
  | ConfirmExam entry rng => Some (confirm_exam self entry rng)
  | DoSearch text search_type => Some (do_search self text search_type)
  | BackFromSearch => Some (back_from_search self)
  | OptionSelected vars opt => on_option_selected vars self opt
  | ClearSelection => clear_selection self
  | PrevQuestion => Some (prev_question self)
  | NextQuestion submit => Some (next_question self submit).1
  | SubmitExam => Some (submit_exam self).1
  end.

(** A session: the callbacks one after the other, up to the first that
    raises. *)
Fixpoint run (self : ExamApp) (events : list Event) : option ExamApp :=
  match events with
  | [] => Some self
  | e :: events' => self' ← step self e; run self' events'
  end.

End App.

(** ** [Question.__str__] *)

(** [s[:n]] *)
Fixpoint str_take (n : nat) (s : string) : string :=
  match n, s with
  | S n', String c s' => String c (str_take n' s')
  | _, _ => EmptyString
  end.

Definition Question_str (self : Question) : string :=
  "[" +:+ j_id self +:+ "] " +:+ str_take 50 (question self) +:+ "...".

(** ** Notions of the statements about the application *)

(** Selections as the option widgets give them: single characters. *)
Definition Letters (l : list string) : Prop :=
  Forall (λ s, String.length s = 1) l.

(** What every callback keeps.  The index points into the list on display,
    or nothing is on display and nothing is loaded; an examination is no
    search; a search has a state to go back to; a saved state has its
    index inside its list; no stored selection has an option twice; and in
    an examination the selections are stored under indices of its
    questions. *)
Definition Inv (self : ExamApp) : Prop :=
  ((current_index self < length (current_questions self))%nat ∨
   current_questions self = [] ∧ current_index self = 0 ∧
   exam_mode self = false ∧ questions (bank self) = []) ∧
  (exam_mode self = true → search_mode self = false) ∧
  (search_mode self = true → is_Some (before_search_state self)) ∧
  (∀ l i, before_search_state self = Some (l, i) → (i < length l)%nat) ∧
  (∀ i l, exam_answers self !! i = Some l → NoDup l) ∧
  (exam_mode self = true →
   ∀ i, i ∈ dom (exam_answers self) → (i < length (current_questions self))%nat).

(** The questions on display that get a mark, each with its index. *)
Definition marked (self : ExamApp) (v : Verdict) : list (nat * Question) :=
  filter (λ iq, grade self iq.1 iq.2 = v) (enumerate (current_questions self)).

(** The callbacks of a user who looks around: searches, steps through the
    questions and touches the options. *)
Definition browsing (e : Event) : bool :=
  match e with
  | DoSearch _ _ | PrevQuestion | NextQuestion _
  | OptionSelected _ _ | ClearSelection => true
  | _ => false
  end.

(** [n] times "next", the question whether to hand in answered by
    [submit] each time. *)
Fixpoint next_times (n : nat) (submit : bool) (self : ExamApp) : ExamApp :=
  match n with
  | 0 => self
  | S n' => next_times n' submit (next_question self submit).1
  end.

(** ** An application for the examples *)

Module ExampleApp.

(** [k] questions in a row are [k] questions of the population. *)
Definition row_length (rng : nat) (population : list Question) (k : nat)
    (H : (k ≤ length population)%nat) :
    length (take k (drop (if decide (rng + k ≤ length population)%nat then rng else 0)
                         population)) = k :=
  length_take_le _ k
    (match decide (rng + k ≤ length population)%nat as d
       return (k ≤ length (drop (if d then rng else 0) population))%nat with
     | left Hd => eq_ind_r (λ n, (k ≤ n)%nat) (Nat.le_add_le_sub_l _ _ _ Hd)
                    (length_drop population rng)
     | right _ => H
     end).

Definition row_submseteq (rng : nat) (population : list Question) (k : nat)
    (_ : (k ≤ length population)%nat) :
    take k (drop (if decide (rng + k ≤ length population)%nat then rng else 0)
                 population) ⊆+ population :=
  sublist_submseteq _ _
    (transitivity (sublist_take _ k) (sublist_drop population _)).

(** A sampler that draws [k] questions in a row, from the place [rng]
    on, and from the first place on when there are too few behind it. *)
Definition first_sampler : Sampler :=
  {| random_sample rng population k :=
       take k (drop (if decide (rng + k ≤ length population)%nat then rng else 0)
                    population);
     random_sample_length := row_length;
     random_sample_submseteq := row_submseteq |}.

(** A question with two right options. *)
Definition multi_question : Question :=
  {| j_id := ""; p_id := "2.1"; i_id := "LK"; question := "Which two?";
     answer := "AC"; options := {[ "A" := "a"; "B" := "b"; "C" := "c" ]};
     image_path := None |}.

(** A record without the field [[T]]. *)
Definition open_question : Question :=
  {| j_id := ""; p_id := ""; i_id := ""; question := "Which antenna?";
     answer := ""; options := {[ "A" := "a" ]}; image_path := None |}.

Definition two_bank : QuestionBank :=
  {| questions := [Example.sample_question; multi_question]; photo_dir := "/media" |}.

(** The bank on display, at its second question. *)
Definition browse : ExamApp :=
  mkExamApp two_bank (questions two_bank) 1 false ∅ false None.

(** An examination on the two questions, at the second, the first one
    answered and the second one ticked back to front. *)
Definition exam : ExamApp :=
  mkExamApp two_bank (questions two_bank) 1 true
            {[ 0 := ["A"]; 1 := ["C"; "A"] ]} false None.

(** The check buttons of the second question, those of [ticked]
    ticked. *)
Definition ticks (ticked : list string) : OptionVars :=
  {| in_option_vars opt := bool_decide (opt ∈ ["A"; "B"; "C"]);
     option_var_get opt := bool_decide (opt ∈ ticked);
     radio_var_get := None |}.

End ExampleApp.

(** * Properties *)

(** ** Strings *)

Section StringFacts.

Implicit Types (s t p : string) (c : ascii).

Lemma str_app_nil_r s : s +:+ "" = s.
Proof. induction s as [|c s IH]; simpl; [done | by rewrite IH]. Qed.

Lemma str_app_assoc s t p : (s +:+ t) +:+ p = s +:+ t +:+ p.
Proof. induction s as [|c s IH]; simpl; [done | by rewrite IH]. Qed.

Lemma str_app_length s t : String.length (s +:+ t) = String.length s + String.length t.
Proof. induction s as [|c s IH]; simpl; [done | by rewrite IH]. Qed.

Lemma str_app_eq_nil s t : s +:+ t = "" → s = "" ∧ t = "".
Proof. by destruct s. Qed.

Lemma is_empty_true s : Str.is_empty s = true ↔ s = "".
Proof. by destruct s. Qed.

Lemma is_empty_false s : Str.is_empty s = false ↔ s ≠ "".
Proof. by destruct s. Qed.

Lemma str_map_app f s t : Str.map f (s +:+ t) = Str.map f s +:+ Str.map f t.
Proof. induction s as [|c s IH]; simpl; [done | by rewrite IH]. Qed.

Lemma str_map_map f g s : Str.map f (Str.map g s) = Str.map (f ∘ g) s.
Proof. induction s as [|c s IH]; simpl; [done | by rewrite IH]. Qed.

Lemma str_map_ext f g s : (∀ c, f c = g c) → Str.map f s = Str.map g s.
Proof. intros E. induction s as [|c s IH]; simpl; [done | by rewrite E, IH]. Qed.

Lemma strip_prefix_spec p t r : Str.strip_prefix p t = Some r ↔ t = p +:+ r.
Proof.
  revert t. induction p as [|a p IH]; intros t; simpl.
  - split; congruence.
  - destruct t as [|b t]; [done|].
    destruct (Ascii.eqb_spec a b) as [->|Hab].
    + rewrite IH. split; congruence.
    + split; [done | congruence].
Qed.

Lemma starts_with_strip_prefix p t :
  Str.starts_with p t = true ↔ is_Some (Str.strip_prefix p t).
Proof.
  revert t. induction p as [|a p IH]; intros t; simpl.
  - split; eauto.
  - destruct t as [|b t]; [split; [done | by intros [? ?]]|].
    destruct (Ascii.eqb a b); simpl; [apply IH|].
    split; [done | by intros [? ?]].
Qed.

Lemma starts_with_spec p t : Str.starts_with p t = true ↔ ∃ r, t = p +:+ r.
Proof.
  rewrite starts_with_strip_prefix. unfold is_Some.
  by setoid_rewrite strip_prefix_spec.
Qed.

Lemma starts_with_app p r : Str.starts_with p (p +:+ r) = true.
Proof. apply starts_with_spec. eauto. Qed.

(** [p in t] holds exactly when [p] occurs in [t]. *)
Lemma contains_spec p t : Str.contains p t = true ↔ Str.Substring p t.
Proof.
  unfold Str.Substring. induction t as [|c t IH].
  - simpl. rewrite orb_false_r, starts_with_spec. split.
    + intros [r Hr]. exists "", r. done.
    + intros (pre & post & H). symmetry in H.
      apply str_app_eq_nil in H as [-> H]. exists post. done.
  - simpl. rewrite orb_true_iff, IH, starts_with_spec. split.
    + intros [[r Hr]|(pre & post & H)].
      * exists "", r. done.
      * exists (String c pre), post. simpl. by rewrite H.
    + intros (pre & post & H). destruct pre as [|a pre]; simpl in H.
      * left. eauto.
      * right. exists pre, post. congruence.
Qed.

Lemma contains_false p t : Str.contains p t = false ↔ ¬ Str.Substring p t.
Proof. rewrite <- contains_spec. by destruct (Str.contains p t). Qed.

Lemma Substring_map f p t :
  Str.Substring p t → Str.Substring (Str.map f p) (Str.map f t).
Proof.
  intros (pre & post & ->). exists (Str.map f pre), (Str.map f post).
  by rewrite !str_map_app.
Qed.

End StringFacts.

(** ** The fuzzy matcher *)

Lemma normalize_char_lower c : normalize_char c = confusable (Char.lower c).
Proof. done. Qed.

Lemma normalize_lower s :
  Str.map normalize_char s = Str.map confusable (Str.lower s).
Proof. unfold Str.lower. rewrite str_map_map. by apply str_map_ext. Qed.

(** With [lower] working character by character, the plain test is
    subsumed by the normalized one: the first [return True] of
    [_fuzzy_match] only saves work. *)
Lemma lower_substring_normalized p t :
  Str.Substring (Str.lower p) (Str.lower t) →
  Str.Substring (Str.map normalize_char p) (Str.map normalize_char t).
Proof. rewrite !normalize_lower. apply Substring_map. Qed.

Lemma fuzzy_match_true pattern text :
  _fuzzy_match pattern text = true ↔
  pattern ≠ "" ∧ text ≠ "" ∧
  (Str.Substring (Str.lower pattern) (Str.lower text) ∨
   Str.Substring (Str.map normalize_char pattern) (Str.map normalize_char text)).
Proof.
  unfold _fuzzy_match. rewrite <- !contains_spec.
  destruct pattern as [|a p]; [naive_solver|].
  destruct text as [|b t]; [naive_solver|].
  cbn [Str.is_empty orb].
  destruct (Str.contains (Str.lower _) _), (Str.contains (Str.map _ _) _);
    naive_solver.
Qed.

Lemma fuzzy_match_normalized pattern text :
  _fuzzy_match pattern text = true ↔
  pattern ≠ "" ∧ text ≠ "" ∧
  Str.Substring (Str.map normalize_char pattern) (Str.map normalize_char text).
Proof.
  rewrite fuzzy_match_true. pose proof (lower_substring_normalized pattern text).
  naive_solver.
Qed.

Lemma in_chars_spec c cs : Char.in_chars c cs = true ↔ c ∈ cs.
Proof.
  unfold Char.in_chars. rewrite existsb_exists. split.
  - intros (x & Hx & E). apply Ascii.eqb_eq in E as ->. by apply list_elem_of_In.
  - intros H. exists c. split; [by apply list_elem_of_In | apply Ascii.eqb_refl].
Qed.

(** The cases of a character: one of the five confusable ones, which
    [done] settles, or none of them. *)
Local Ltac confusable_cases x :=
  destruct (Ascii.eqb_spec x "l") as [->|?]; [done|];
  destruct (Ascii.eqb_spec x "i") as [->|?]; [done|];
  destruct (Ascii.eqb_spec x "1") as [->|?]; [done|];
  destruct (Ascii.eqb_spec x "o") as [->|?]; [done|];
  destruct (Ascii.eqb_spec x "0") as [->|?]; [done|].

(** C4: [_fuzzy_match] is false when the pattern or the text is empty;
    otherwise it is true exactly when the lower-cased pattern occurs in the
    lower-cased text or the normalized pattern occurs in the normalized
    text.  The normalization lower-cases a character and then sends l, i
    and 1 to i, and o and 0 to 0.  ["l0ve"] matches ["I0VE"], and ["xyz"]
    does not match ["abc"]. *)
Theorem fuzzy_match_spec :
  (∀ text, _fuzzy_match "" text = false) ∧
  (∀ pattern, _fuzzy_match pattern "" = false) ∧
  (∀ pattern text,
     _fuzzy_match pattern text = true ↔
     pattern ≠ "" ∧ text ≠ "" ∧
     (Str.Substring (Str.lower pattern) (Str.lower text) ∨
      Str.Substring (Str.map normalize_char pattern)
                    (Str.map normalize_char text))) ∧
  (∀ c, normalize_char c = "i"%char ↔ Char.lower c ∈ ["l"; "i"; "1"]%char) ∧
  (∀ c, normalize_char c = "0"%char ↔ Char.lower c ∈ ["o"; "0"]%char) ∧
  (∀ c, normalize_char c = "i"%char ∨ normalize_char c = "0"%char ∨
        normalize_char c = Char.lower c) ∧
  _fuzzy_match "l0ve" "I0VE" = true ∧
  _fuzzy_match "xyz" "abc" = false.
Proof.
  split_and!; try done.
  - by intros [|a p].
  - apply fuzzy_match_true.
  - intros c. rewrite <- in_chars_spec, normalize_char_lower.
    generalize (Char.lower c). intros x. unfold confusable, Char.in_chars. simpl.
    confusable_cases x. simpl. split; congruence.
  - intros c. rewrite <- in_chars_spec, normalize_char_lower.
    generalize (Char.lower c). intros x. unfold confusable, Char.in_chars. simpl.
    confusable_cases x. simpl. split; congruence.
  - intros c. unfold normalize_char.
    destruct (Char.in_chars _ ["l"; _; _]%char); [by left|].
    destruct (Char.in_chars _ ["o"; _]%char); [by right; left | by right; right].
Qed.

(** ** White space *)

Lemma lstrip_all_space s : Str.all_space s = true → Str.lstrip s = "".
Proof.
  induction s as [|c s IH]; simpl; [done|].
  intros [Hc Hs]%andb_true_iff. rewrite Hc. auto.
Qed.

Lemma strip_all_space s : Str.all_space s = true → Str.strip s = "".
Proof. intros H. unfold Str.strip. by rewrite lstrip_all_space. Qed.

Lemma lstrip_spec s :
  ∃ l, s = l +:+ Str.lstrip s ∧ Str.all_space l = true ∧
       ∀ c t, Str.lstrip s = String c t → Char.isspace c = false.
Proof.
  induction s as [|a s (l & E & Hl & Hfirst)]; [by exists ""|].
  cbn [Str.lstrip]. destruct (Char.isspace a) eqn:Ha.
  - exists (String a l). simpl. rewrite Ha, <- E. done.
  - exists "". split_and!; [done..|]. by intros c t [= <- <-].
Qed.

Lemma rstrip_spec s :
  ∃ r, s = Str.rstrip s +:+ r ∧ Str.all_space r = true ∧
       ∀ t c, Str.rstrip s = t +:+ String c "" → Char.isspace c = false.
Proof.
  induction s as [|a s (r & E & Hr & Hlast)].
  { exists "". simpl. split_and!; [done..|]. intros t c H. by destruct t. }
  cbn [Str.rstrip]. destruct (Str.rstrip s) as [|b u] eqn:Eu.
  - destruct (Char.isspace a) eqn:Ha.
    + exists (String a r). simpl in E. subst s. simpl. rewrite Ha.
      split_and!; [done..|]. intros t c H. by destruct t.
    + exists r. simpl in E. subst s. split_and!; [done..|].
      intros t c H. destruct t as [|x [|y t]]; simpl in H; [|done..].
      by injection H as <-.
  - exists r. simpl in E. subst s. split_and!; [done..|].
    intros t c H. destruct t as [|x t]; simpl in H; [done|].
    injection H as <- Ht. by eapply Hlast.
Qed.

(** [s.strip()] is [s] without the white space at its two ends. *)
Lemma strip_spec s :
  ∃ l r, s = l +:+ Str.strip s +:+ r ∧
         Str.all_space l = true ∧ Str.all_space r = true ∧
         (∀ c t, Str.strip s = String c t → Char.isspace c = false) ∧
         (∀ t c, Str.strip s = t +:+ String c "" → Char.isspace c = false).
Proof.
  unfold Str.strip.
  destruct (lstrip_spec s) as (l & El & Hl & Hfirst).
  destruct (rstrip_spec (Str.lstrip s)) as (r & Er & Hr & Hlast).
  exists l, r. split_and!; [by rewrite <- Er | done | done | | done].
  intros c t Ec. rewrite Ec in Er. simpl in Er. by eapply Hfirst.
Qed.

(** ** The searches *)

Lemma collect_filter (test : Question → bool) qs :
  collect test qs = filter (λ q, test q = true) qs.
Proof.
  unfold collect.
  enough (∀ acc, fold_left (λ results q, if test q then results ++ [q] else results) qs acc
                 = acc ++ filter (λ q, test q = true) qs) as H by apply H.
  induction qs as [|q qs IH]; intros acc; simpl.
  - by rewrite filter_nil, app_nil_r.
  - rewrite IH, filter_cons. destruct (test q) eqn:E.
    + rewrite decide_True by done. by rewrite <- app_assoc.
    + rewrite decide_False by congruence. done.
Qed.

Lemma keyword_test_spec keyword q :
  keyword_test keyword q = true ↔ KeywordHit keyword q.
Proof.
  unfold keyword_test, KeywordHit, option_values.
  rewrite !orb_true_iff, existsb_exists, map_Exists_to_list, Exists_exists.
  assert ((∃ opt, In opt (map_to_list (options q)).*2 ∧ _fuzzy_match keyword opt = true)
          ↔ ∃ kv, kv ∈ map_to_list (options q) ∧ uncurry (λ _ opt, _fuzzy_match keyword opt = true) kv)
    as ->; [|tauto].
  split.
  - intros (opt & Hin & Hm). apply list_elem_of_In, list_elem_of_fmap in Hin as ([k v] & -> & Hkv).
    exists (k, v). done.
  - intros ([k v] & Hkv & Hm). exists v. split; [|done].
    apply list_elem_of_In, list_elem_of_fmap. exists (k, v). done.
Qed.

Lemma collect_none (test : Question → bool) qs :
  (∀ q, test q = false) → collect test qs = [].
Proof.
  intros H. rewrite collect_filter. induction qs as [|q qs IH]; [done|].
  rewrite filter_cons, decide_False; [done | by rewrite H].
Qed.

Lemma keyword_test_empty q : keyword_test "" q = false.
Proof.
  unfold keyword_test. simpl. induction (option_values q) as [|opt l IH]; done.
Qed.

(** A query of white space only, the empty one apart, finds nothing. *)
Lemma search_blank self query :
  Blank query → query ≠ "" →
  search_by_keyword self query = [] ∧
  search_by_chapter self query = [] ∧
  search_by_id self query = [].
Proof.
  intros Hb Hne. unfold search_by_keyword, search_by_chapter, search_by_id.
  apply is_empty_false in Hne. rewrite Hne, strip_all_space by done.
  cbv beta iota zeta.
  split_and!; apply collect_none; [apply keyword_test_empty | done..].
Qed.

(** C3, as stated, fails: the query [" "] holds white space only, and
    each of the three searches answers it with the empty list, not with
    the list of the bank. *)
Lemma search_blank_counterexample :
  Blank " " ∧
  questions Example.sample_bank = [Example.sample_question] ∧
  search_by_keyword Example.sample_bank " " = [] ∧
  search_by_chapter Example.sample_bank " " = [] ∧
  search_by_id Example.sample_bank " " = [].
Proof. split_and!; [done | done | apply search_blank; done ..]. Qed.

(** C3, amended: for every bank, each of the three searches answers the
    empty query with the whole list of the bank, unchanged and in the same
    order. *)
Theorem search_empty_query self :
  search_by_keyword self "" = questions self ∧
  search_by_chapter self "" = questions self ∧
  search_by_id self "" = questions self.
Proof. done. Qed.

(** C7, as stated, fails: the query [" X "] is not blank, no field of the
    sample record matches it as it stands, and [search_by_keyword] still
    returns the record, for it matches the trimmed query. *)
Lemma search_by_keyword_counterexample :
  ¬ Blank " X " ∧
  filter (KeywordHit " X ") (questions Example.sample_bank) = [] ∧
  search_by_keyword Example.sample_bank " X " = [Example.sample_question].
Proof. split_and!; [done | by vm_compute | by vm_compute]. Qed.

(** C7, amended: for a query that is not empty, [search_by_keyword]
    returns exactly the records of which the question body, the public
    number, the chapter code or some option text matches the trimmed
    query, in the order of the bank; for a query without white space at
    its ends these are the records that match the query itself. *)
Theorem search_by_keyword_spec self keyword :
  keyword ≠ "" →
  search_by_keyword self keyword
    = filter (KeywordHit (Str.strip keyword)) (questions self) ∧
  (Str.strip keyword = keyword →
   search_by_keyword self keyword = filter (KeywordHit keyword) (questions self)).
Proof.
  intros Hne%is_empty_false.
  assert (search_by_keyword self keyword
          = filter (KeywordHit (Str.strip keyword)) (questions self)) as H.
  { unfold search_by_keyword. rewrite Hne, collect_filter.
    apply list_filter_iff. intros q. apply keyword_test_spec. }
  split; [done|]. intros E. by rewrite H, E.
Qed.

Lemma search_by_keyword_spec_witness :
  "opta" ≠ "" ∧ Str.strip "opta" = "opta" ∧
  search_by_keyword Example.sample_bank "opta"
    = filter (KeywordHit (Str.strip "opta")) (questions Example.sample_bank) ∧
  search_by_keyword Example.sample_bank "opta"
    = filter (KeywordHit "opta") (questions Example.sample_bank).
Proof.
  destruct (search_by_keyword_spec Example.sample_bank "opta") as [H1 H2];
    [discriminate|].
  split_and!; [discriminate | reflexivity | exact H1 | exact (H2 eq_refl)].
Defined.

(** C8, as stated, fails: the query [" 1.2 "] is not blank, the chapter
    code ["1.2.1"] does not match it as it stands, and [search_by_chapter]
    still returns the record, for it matches the trimmed query. *)
Lemma search_by_chapter_counterexample :
  ¬ Blank " 1.2 " ∧
  _fuzzy_match " 1.2 " (p_id Example.sample_question) = false ∧
  search_by_chapter Example.sample_bank " 1.2 " = [Example.sample_question].
Proof. split_and!; [done | by vm_compute | by vm_compute]. Qed.

(** C8, amended: for a query that is not empty, [search_by_chapter]
    returns exactly the records whose chapter code matches the trimmed
    query, in the order of the bank (the query itself when it has no white
    space at its ends).  The match is by substring: ["1.2"] matches the
    codes ["1.2"], ["1.2.3"], ["1.20"] and ["21.2"]. *)
Theorem search_by_chapter_spec self chapter :
  chapter ≠ "" →
  search_by_chapter self chapter
    = filter (λ q, _fuzzy_match (Str.strip chapter) (p_id q) = true) (questions self) ∧
  (Str.strip chapter = chapter →
   search_by_chapter self chapter
     = filter (λ q, _fuzzy_match chapter (p_id q) = true) (questions self)) ∧
  Forall (λ code, _fuzzy_match "1.2" code = true) ["1.2"; "1.2.3"; "1.20"; "21.2"].
Proof.
  intros Hne%is_empty_false.
  assert (search_by_chapter self chapter
          = filter (λ q, _fuzzy_match (Str.strip chapter) (p_id q) = true) (questions self)) as H.
  { unfold search_by_chapter. by rewrite Hne, collect_filter. }
  split_and!; [done | | by repeat constructor].
  intros E. by rewrite H, E.
Qed.

Lemma search_by_chapter_spec_witness :
  "1.2" ≠ "" ∧ Str.strip "1.2" = "1.2" ∧
  search_by_chapter Example.sample_bank "1.2"
    = filter (λ q, _fuzzy_match (Str.strip "1.2") (p_id q) = true)
             (questions Example.sample_bank) ∧
  search_by_chapter Example.sample_bank "1.2"
    = filter (λ q, _fuzzy_match "1.2" (p_id q) = true)
             (questions Example.sample_bank).
Proof.
  destruct (search_by_chapter_spec Example.sample_bank "1.2") as (H1 & H2 & _);
    [discriminate|].
  split_and!; [discriminate | reflexivity | exact H1 | exact (H2 eq_refl)].
Defined.


Lemma search_by_id_example :
  search_by_id Example.sample_bank "mc" = [Example.sample_question] ∧
  search_by_id Example.sample_bank "XY" = [].
Proof. by vm_compute. Qed.

(** ** The pattern of a field *)

Lemma line_head_app g post :
  Str.no_nl g = true → Str.at_line_end post = true →
  Str.line_head (g +:+ post) = g.
Proof.
  intros Hg Hpost. induction g as [|a g IH]; simpl in *.
  - destruct post as [|c post]; simpl in *; [done | by rewrite Hpost].
  - apply andb_true_iff in Hg as [Ha Hg].
    destruct (Ascii.eqb a Char.nl); [done|]. by rewrite IH.
Qed.

Lemma line_head_split s :
  ∃ post, s = Str.line_head s +:+ post ∧
          Str.no_nl (Str.line_head s) = true ∧ Str.at_line_end post = true.
Proof.
  induction s as [|c s (post & E & Hn & Hp)]; simpl.
  - by exists "".
  - destruct (Ascii.eqb c Char.nl) eqn:Ec.
    + exists (String c s). simpl. by rewrite Ec.
    + exists post. simpl. rewrite Ec, <- E. done.
Qed.

Lemma match_tag_at_spec X s g : match_tag_at X s = Some g ↔ TagMatch X g s.
Proof.
  unfold match_tag_at, TagMatch.
  destruct (Str.strip_prefix (tag X) s) as [rest|] eqn:E.
  - apply strip_prefix_spec in E as ->. split.
    + intros H. destruct (line_head_split rest) as (post & Er & Hn & Hp).
      destruct (Str.line_head rest) as [|a l] eqn:El; [done|].
      injection H as <-. exists post. by rewrite <- Er.
    + intros (post & E & Hne & Hn & Hp).
      apply (inj (String.append (tag X))) in E as ->.
      rewrite line_head_app by done. by destruct g.
  - split; [done|]. intros (post & -> & _).
    assert (Str.strip_prefix (tag X) (tag X +:+ g +:+ post) = Some (g +:+ post)) as E'
      by by apply strip_prefix_spec.
    congruence.
Qed.

Lemma match_tag_at_None X s : match_tag_at X s = None ↔ ∀ g, ¬ TagMatch X g s.
Proof.
  split.
  - intros H g Hg%match_tag_at_spec. congruence.
  - intros H. destruct (match_tag_at X s) as [g|] eqn:E; [|done].
    apply match_tag_at_spec in E. by destruct (H g).
Qed.

Lemma re_search_tag_cons X c text :
  re_search_tag X (String c text) =
  match match_tag_at X (String c text) with
  | Some group => Some group
  | None => re_search_tag X text
  end.
Proof. done. Qed.

Lemma re_search_tag_nil X : re_search_tag X "" = None.
Proof. done. Qed.

(** [re.search] finds the group of the leftmost match. *)
Lemma re_search_tag_Some X text g :
  re_search_tag X text = Some g ↔ FirstTagMatch X g text.
Proof.
  unfold FirstTagMatch. revert g. induction text as [|c text IH]; intros g.
  - rewrite re_search_tag_nil. split; [done|].
    intros (pre & rest & E & Hm & _). symmetry in E.
    apply str_app_eq_nil in E as [_ ->].
    apply match_tag_at_spec in Hm. done.
  - rewrite re_search_tag_cons.
    destruct (match_tag_at X (String c text)) as [g0|] eqn:E0.
    + split.
      * intros [= <-]. exists "", (String c text).
        split_and!; [done | by apply match_tag_at_spec |]. intros; simpl; lia.
      * intros (pre & rest & E & Hm & Hmin).
        apply match_tag_at_spec in E0.
        specialize (Hmin "" (String c text) g0 eq_refl E0).
        destruct pre; simpl in *; [|lia]. subst rest.
        apply match_tag_at_spec in E0, Hm. congruence.
    + rewrite IH. split.
      * intros (pre & rest & -> & Hm & Hmin). exists (String c pre), rest.
        split_and!; [done..|]. intros pre' rest' g' E' Hm'.
        destruct pre' as [|c' pre']; simpl in E'.
        { subst rest'. apply match_tag_at_spec in Hm'. congruence. }
        injection E' as <- E'. simpl. apply le_n_S. by eapply Hmin.
      * intros (pre & rest & E & Hm & Hmin).
        destruct pre as [|c' pre]; simpl in E.
        { subst rest. apply match_tag_at_spec in Hm. congruence. }
        injection E as <- ->. exists pre, rest. split_and!; [done..|].
        intros pre' rest' g' E' Hm'.
        specialize (Hmin (String c pre') rest' g'). simpl in Hmin.
        rewrite E' in Hmin. specialize (Hmin eq_refl Hm'). lia.
Qed.

(** [re.search] gives [None] exactly when the pattern matches nowhere. *)
Lemma re_search_tag_None X text :
  re_search_tag X text = None ↔ NoTagMatch X text.
Proof.
  unfold NoTagMatch. induction text as [|c text IH].
  - split; [|done]. intros _ pre rest g E Hm. symmetry in E.
    apply str_app_eq_nil in E as [_ ->]. by apply match_tag_at_spec in Hm.
  - rewrite re_search_tag_cons.
    destruct (match_tag_at X (String c text)) as [g0|] eqn:E0.
    + split; [done|]. intros H. apply match_tag_at_spec in E0.
      by destruct (H "" (String c text) g0).
    + rewrite IH. split.
      * intros H pre rest g E Hm. destruct pre as [|c' pre]; simpl in E.
        { subst rest. apply match_tag_at_spec in Hm. congruence. }
        injection E as <- E. by eapply H.
      * intros H pre rest g E Hm. apply (H (String c pre) rest g); [|done].
        simpl. by rewrite E.
Qed.

(** ** The parser of one record *)

Section ParserFacts.

Context `{os : Os}.

Lemma parse_question_eq self text :
  _parse_question self text =
  if Str.is_empty (field_value "Q" text) then None else Some (parsed self text).
Proof.
  unfold _parse_question, parsed, parsed_image, parsed_options, field_value,
    with_match, parse_option, option_letters.
  cbn [fold_left].
  destruct (re_search_tag "Q" text) as [gq|];
  destruct (re_search_tag "J" text) as [gj|];
  destruct (re_search_tag "P" text) as [gp|];
  destruct (re_search_tag "I" text) as [gi|];
  destruct (re_search_tag "T" text) as [gt|];
  destruct (re_search_tag "F" text) as [gf|];
  destruct (re_search_tag "A" text) as [ga|];
  destruct (re_search_tag "B" text) as [gb|];
  destruct (re_search_tag "C" text) as [gc|];
  destruct (re_search_tag "D" text) as [gd|];
  cbn; try destruct (Str.strip gq); try destruct (Str.is_empty (photo_dir self));
  reflexivity.
Qed.

Lemma parse_question_Some self text q :
  _parse_question self text = Some q ↔
  field_value "Q" text ≠ "" ∧ q = parsed self text.
Proof.
  rewrite parse_question_eq. destruct (field_value "Q" text); simpl; naive_solver.
Qed.

Lemma parse_question_None self text :
  _parse_question self text = None ↔ field_value "Q" text = "".
Proof.
  rewrite parse_question_eq. by destruct (field_value "Q" text).
Qed.

(** The parser reads [self.photo_dir] only. *)
Lemma parse_question_set_questions self l text :
  _parse_question (set_questions l self) text = _parse_question self text.
Proof. done. Qed.

Lemma parsed_options_lookup text letter :
  parsed_options text !! letter =
  if decide (letter ∈ option_letters)
  then Str.strip <$> re_search_tag letter text
  else None.
Proof.
  unfold parsed_options, option_letters. cbn [fold_left].
  case_decide as Hin.
  - repeat (apply elem_of_cons in Hin as [->|Hin]);
      [| | | | by apply elem_of_nil in Hin];
      destruct (re_search_tag "A" text), (re_search_tag "B" text),
        (re_search_tag "C" text), (re_search_tag "D" text);
      by simplify_map_eq.
  - assert (letter ≠ "A" ∧ letter ≠ "B" ∧ letter ≠ "C" ∧ letter ≠ "D")
      as (? & ? & ? & ?) by (split_and!; intros ->; apply Hin; set_solver).
    destruct (re_search_tag "A" text), (re_search_tag "B" text),
      (re_search_tag "C" text), (re_search_tag "D" text);
      by simplify_map_eq.
Qed.

Lemma parsed_options_dom text :
  dom (parsed_options text) ⊆ list_to_set option_letters.
Proof.
  intros letter [v Hv]%elem_of_dom. rewrite parsed_options_lookup in Hv.
  case_decide; [|done]. by apply elem_of_list_to_set.
Qed.

(** ** The pictures *)

Lemma try_extensions_find abs_photo_dir base_name exts image_path :
  try_extensions abs_photo_dir base_name exts image_path =
  match List.find (λ ext, path_exists (path_join abs_photo_dir (base_name +:+ ext))) exts with
  | Some ext => path_join abs_photo_dir (base_name +:+ ext)
  | None => image_path
  end.
Proof.
  induction exts as [|ext exts IH]; simpl; [done|].
  by destruct (path_exists _).
Qed.

(** The first item of a list that passes a test, by its position. *)
Lemma find_first {A} (f : A → bool) l i x :
  l !! i = Some x → f x = true →
  (∀ j y, j < i → l !! j = Some y → f y = false) →
  List.find f l = Some x.
Proof.
  revert i. induction l as [|a l IH]; intros i Hi Hx Hbefore; [done|].
  destruct i as [|i]; simpl in *.
  - injection Hi as ->. by rewrite Hx.
  - rewrite (Hbefore 0 a) by (done || lia).
    apply (IH i); [done..|]. intros j y Hj Hy. apply (Hbefore (S j) y); [lia | done].
Qed.

Lemma find_none {A} (f : A → bool) l :
  (∀ x, x ∈ l → f x = false) → List.find f l = None.
Proof.
  induction l as [|a l IH]; intros H; simpl; [done|].
  rewrite H by left. apply IH. intros x Hx. apply H. by right.
Qed.

End ParserFacts.

Section ImageFacts.

Context `{os : Os}.

(** C9: for a record with an [F] value, a media directory and a question
    body, the record is produced, and its picture is found as follows.
    The candidate is the media directory, made absolute, joined with the
    [F] value.  If it exists it is the picture.  If not, the extension of
    the [F] value is taken off and [.jpg], [.png], [.jpeg], [.JPG],
    [.PNG], [.JPEG] are tried in this order, the first path that exists
    being the picture.  If none exists the record has no picture. *)
Theorem image_resolution self text g :
  re_search_tag "F" text = Some g →
  photo_dir self ≠ "" →
  field_value "Q" text ≠ "" →
  let image_filename := Str.strip g in
  let abs_photo_dir := path_abspath (photo_dir self) in
  let candidate := path_join abs_photo_dir image_filename in
  let alt ext :=
    path_join abs_photo_dir (fst (path_splitext image_filename) +:+ ext) in
  ∃ q,
    _parse_question self text = Some q ∧
    image_extensions = [".jpg"; ".png"; ".jpeg"; ".JPG"; ".PNG"; ".JPEG"] ∧
    (path_exists candidate = true →
     image_path q = Some (path_abspath candidate)) ∧
    (path_exists candidate = false →
     ∀ i ext,
       image_extensions !! i = Some ext →
       path_exists (alt ext) = true →
       (∀ j ext', j < i → image_extensions !! j = Some ext' →
                  path_exists (alt ext') = false) →
       image_path q = Some (path_abspath (alt ext))) ∧
    (path_exists candidate = false →
     (∀ ext, ext ∈ image_extensions → path_exists (alt ext) = false) →
     image_path q = None).
Proof.
  intros Hf Hdir HQ image_filename abs_photo_dir candidate alt.
  exists (parsed self text). split; [by apply parse_question_Some|].
  split; [done|].
  apply is_empty_false in Hdir.
  assert (image_path (parsed self text)
          = resolve_image (photo_dir self) image_filename) as ->.
  { simpl. unfold parsed_image. rewrite Hf. simpl. by rewrite Hdir. }
  unfold resolve_image.
  fold abs_photo_dir. fold candidate.
  split_and!.
  - intros Hc. rewrite Hc. cbn [negb]. by rewrite Hc.
  - intros Hc i ext Hi Hext Hbefore. rewrite Hc. cbn [negb].
    rewrite try_extensions_find.
    rewrite (find_first _ _ i ext Hi Hext) by done.
    fold (alt ext). by rewrite Hext.
  - intros Hc Hnone. rewrite Hc. cbn [negb].
    rewrite try_extensions_find, find_none by done. by rewrite Hc.
Qed.

End ImageFacts.

Lemma image_resolution_witness :
  let text := "[Q]Which antenna?" +:+ Example.nl +:+ "[F] img1.bmp " in
  (∃ q, _parse_question (os := Example.bmp_os) Example.sample_bank text = Some q ∧
        image_path q = Some "/media/img1.bmp") ∧
  (∃ q, _parse_question (os := Example.png_os) Example.sample_bank text = Some q ∧
        image_path q = Some "/media/img1.png") ∧
  (∃ q, _parse_question (os := Example.sample_os) Example.sample_bank text = Some q ∧
        image_path q = None).
Proof.
  intros text. split_and!.
  - destruct (image_resolution (os := Example.bmp_os) Example.sample_bank
                text " img1.bmp " eq_refl)
      as (q & Hq & _ & Hraw & _ & _); [discriminate | discriminate |].
    exists q. split; [exact Hq|]. exact (Hraw eq_refl).
  - destruct (image_resolution (os := Example.png_os) Example.sample_bank
                text " img1.bmp " eq_refl)
      as (q & Hq & _ & _ & Halt & _); [discriminate | discriminate |].
    exists q. split; [exact Hq|].
    apply (Halt eq_refl 1 ".png" eq_refl eq_refl).
    intros [|j] ext' Hj Hext'; [|lia]. by injection Hext' as <-.
  - destruct (image_resolution (os := Example.sample_os) Example.sample_bank
                text " img1.bmp " eq_refl)
      as (q & Hq & _ & _ & _ & Hnone); [discriminate | discriminate |].
    exists q. split; [exact Hq|]. apply (Hnone eq_refl).
    intros ext Hext. unfold image_extensions in Hext. set_unfold in Hext.
    by destruct_or!; subst.
Defined.

(** The scenario of the missing picture: the [F] value ["img1.bmp"] with
    none of [img1.bmp], [img1.jpg], [img1.png], ... in the media
    directory gives a record without a picture, and the load succeeds.
    With [img1.png] and [img1.PNG] there, the picture is [img1.png]; with
    [img1.bmp] there too, it is [img1.bmp]. *)
Lemma image_missing_example :
  load_from_file (os := Example.sample_os) QuestionBank_init
    "/bank/pictured.txt" (Some "/media")
  = ({| questions :=
          [ {| j_id := ""; p_id := ""; i_id := ""; question := "Which antenna?";
               answer := ""; options := ∅; image_path := None |} ];
        photo_dir := "/media" |}, true) ∧
  image_path <$> questions (load_from_file (os := Example.png_os) QuestionBank_init
                              "/bank/pictured.txt" (Some "/media")).1
  = [Some "/media/img1.png"] ∧
  image_path <$> questions (load_from_file (os := Example.bmp_os) QuestionBank_init
                              "/bank/pictured.txt" (Some "/media")).1
  = [Some "/media/img1.bmp"].
Proof. by vm_compute. Qed.

(** ** The loader *)

Section LoaderFacts.

Context `{os : Os}.

Lemma load_steps matches self :
  fold_left load_step matches self =
  set_questions (questions self ++ omap (_parse_question self) matches) self.
Proof.
  revert self. induction matches as [|m ms IH]; intros self; simpl.
  - rewrite app_nil_r. by destruct self.
  - rewrite IH. unfold load_step.
    destruct (_parse_question self m) as [q|] eqn:E; [|done].
    simpl. by rewrite <- app_assoc.
Qed.

(** The bank after a load that could read the file: the directory chosen
    and the records parsed from the chunks, in their order. *)
Lemma load_from_file_read self filepath dir content :
  read_text filepath = Some content →
  let self' := (load_from_file self filepath dir).1 in
  load_from_file self filepath dir
    = (self', Nat.ltb 0 (length (questions self'))) ∧
  photo_dir self' = choose_photo_dir filepath dir ∧
  questions self' = omap (_parse_question self') (findall_J content).
Proof.
  intros Hread. unfold load_from_file. rewrite Hread, load_steps. done.
Qed.

Lemma load_from_file_unreadable self filepath photo_dir :
  read_text filepath = None →
  load_from_file self filepath photo_dir
    = (set_photo_dir (choose_photo_dir filepath photo_dir) self, false).
Proof. intros Hread. unfold load_from_file. by rewrite Hread. Qed.

(** C2, amended: [load_from_file] fails exactly when the file cannot be
    read or no record is produced from it.  When the file cannot be read
    the list of the bank is left as it was.  When it is read the list is
    replaced by the records produced, so that a load that produces none
    leaves the bank empty. *)
Theorem load_result self filepath photo_dir :
  let r := load_from_file self filepath photo_dir in
  (r.2 = false ↔
   read_text filepath = None ∨
   ∃ content, read_text filepath = Some content ∧
              omap (_parse_question r.1) (findall_J content) = []) ∧
  (read_text filepath = None → questions r.1 = questions self) ∧
  (∀ content, read_text filepath = Some content →
              questions r.1 = omap (_parse_question r.1) (findall_J content)) ∧
  (r.2 = false → questions r.1 = questions self ∨ questions r.1 = []).
Proof.
  intros r. subst r.
  destruct (read_text filepath) as [content|] eqn:Hread.
  - destruct (load_from_file_read self filepath photo_dir content Hread)
      as (E & _ & Hqs).
    set (self' := (load_from_file self filepath photo_dir).1) in *.
    assert ((load_from_file self filepath photo_dir).2 = false ↔ questions self' = []) as Hok.
    { rewrite E. simpl. destruct (questions self'); simpl; naive_solver. }
    split_and!.
    + rewrite Hok, Hqs. split; [|naive_solver].
      intros H. right. exists content. done.
    + done.
    + by intros ? [= <-].
    + rewrite Hok. auto.
  - rewrite load_from_file_unreadable by done. simpl.
    split_and!; [naive_solver | done | done | auto].
Qed.

End LoaderFacts.

Lemma load_result_witness :
  (read_text (Os := Example.sample_os) "/bank/missing.txt" = None ∧
   questions (load_from_file (os := Example.sample_os) Example.sample_bank
                "/bank/missing.txt" None).1
   = questions Example.sample_bank) ∧
  (read_text (Os := Example.sample_os) "/bank/tk.txt" = Some Example.sample ∧
   let r := load_from_file (os := Example.sample_os) Example.sample_bank
              "/bank/tk.txt" None in
   questions r.1
   = omap (_parse_question (os := Example.sample_os) r.1) (findall_J Example.sample)).
Proof.
  split_and!; [reflexivity | | reflexivity |].
  - destruct (load_result (os := Example.sample_os) Example.sample_bank
                "/bank/missing.txt" None) as (_ & H & _).
    apply H. reflexivity.
  - destruct (load_result (os := Example.sample_os) Example.sample_bank
                "/bank/tk.txt" None) as (_ & _ & H & _).
    apply (H Example.sample). reflexivity.
Defined.

(** C2, as stated, fails: a bank that holds the record of the scenario
    loads a file without records; the load fails, and the list of the bank
    is empty afterwards. *)
Lemma load_empty_counterexample :
  let r := load_from_file (os := Example.sample_os) Example.sample_bank
             "/bank/empty.txt" None in
  questions Example.sample_bank = [Example.sample_question] ∧
  read_text (Os := Example.sample_os) "/bank/empty.txt" = Some "no record here" ∧
  r.2 = false ∧
  questions r.1 = [].
Proof. by vm_compute. Qed.

(** ** The splitting pattern *)

Lemma chunks_from_unfold c s :
  chunks_from (String c s) =
  if Str.starts_with (tag "J") (String c s) then
    match s with
    | String _ (String _ r) =>
        let '(chunk, more) := chunks_from r in (EmptyString, chunk :: more)
    | _ => (EmptyString, [])
    end
  else if Str.at_dollar (String c s) then (EmptyString, [])
  else let '(chunk, more) := chunks_from s in (String c chunk, more).
Proof. done. Qed.

Lemma findall_J_unfold c s :
  findall_J (String c s) =
  if Str.starts_with (tag "J") (String c s) then
    match s with
    | String _ (String _ r) =>
        let '(chunk, more) := chunks_from r in chunk :: more
    | _ => []
    end
  else findall_J s.
Proof. done. Qed.

Lemma chunks_from_J r :
  chunks_from (tag "J" +:+ r) = (EmptyString, (chunks_from r).1 :: (chunks_from r).2).
Proof. change (tag "J" +:+ r) with (String "[" (String "J" (String "]" r))).
  rewrite chunks_from_unfold. simpl. by destruct (chunks_from r). Qed.

Lemma findall_J_J r :
  findall_J (tag "J" +:+ r) = (chunks_from r).1 :: (chunks_from r).2.
Proof. change (tag "J" +:+ r) with (String "[" (String "J" (String "]" r))).
  rewrite findall_J_unfold. simpl. by destruct (chunks_from r). Qed.

Lemma NoJ_nil : NoJ "".
Proof. done. Qed.

Lemma NoJ_cons c s :
  NoJ (String c s) ↔ Str.starts_with (tag "J") (String c s) = false ∧ NoJ s.
Proof. unfold NoJ. cbn [Str.contains]. apply orb_false_iff. Qed.

Lemma NoJ_tail c s : NoJ (String c s) → NoJ s.
Proof. by intros [_ H]%NoJ_cons. Qed.

Lemma NoJ_starts_with s : NoJ s → Str.starts_with (tag "J") s = false.
Proof. destruct s as [|c s]; [done|]. by intros [H _]%NoJ_cons. Qed.

Lemma starts_with_app_l p s t :
  Str.starts_with p s = true → Str.starts_with p (s +:+ t) = true.
Proof.
  intros [r ->]%starts_with_spec. rewrite str_app_assoc. apply starts_with_app.
Qed.

(** [[J]] has no border: in a text free of it, no occurrence can begin
    and run into a [[J]] that follows. *)
Lemma NoJ_border c r :
  NoJ c → c ≠ "" → Str.starts_with (tag "J") (c +:+ tag "J" +:+ r) = false.
Proof.
  intros Hc Hne. apply NoJ_starts_with in Hc.
  destruct c as [|a [|b [|d c]]]; [done| | |];
    cbv [tag] in *; cbn [String.append Str.starts_with] in *.
  - by destruct (Ascii.eqb "[" a).
  - by destruct (Ascii.eqb "[" a), (Ascii.eqb "J" b).
  - done.
Qed.

Lemma chunks_from_next c r :
  NoJ c →
  chunks_from (c +:+ tag "J" +:+ r) = (c, (chunks_from r).1 :: (chunks_from r).2).
Proof.
  induction c as [|a c IH]; intros Hc.
  - apply chunks_from_J.
  - change (String a c +:+ tag "J" +:+ r) with (String a (c +:+ tag "J" +:+ r)).
    rewrite chunks_from_unfold.
    change (String a (c +:+ tag "J" +:+ r)) with (String a c +:+ tag "J" +:+ r).
    rewrite NoJ_border by done.
    replace (Str.at_dollar (String a c +:+ tag "J" +:+ r)) with false
      by by destruct c.
    rewrite IH by by eapply NoJ_tail. done.
Qed.

Lemma chunks_from_last c : NoJ c → chunks_from c = (Str.chomp c, []).
Proof.
  induction c as [|a c IH]; intros Hc; [done|].
  rewrite chunks_from_unfold, NoJ_starts_with by done.
  cbn [Str.chomp]. destruct (Str.at_dollar (String a c)); [done|].
  rewrite IH by by eapply NoJ_tail. done.
Qed.

Lemma findall_J_skip pre r :
  NoJ pre →
  findall_J (pre +:+ tag "J" +:+ r) = (chunks_from r).1 :: (chunks_from r).2.
Proof.
  induction pre as [|a pre IH]; intros Hpre.
  - apply findall_J_J.
  - change (String a pre +:+ tag "J" +:+ r) with (String a (pre +:+ tag "J" +:+ r)).
    rewrite findall_J_unfold.
    change (String a (pre +:+ tag "J" +:+ r)) with (String a pre +:+ tag "J" +:+ r).
    rewrite NoJ_border by done. apply IH. by eapply NoJ_tail.
Qed.

Lemma findall_J_none s : NoJ s → findall_J s = [].
Proof.
  induction s as [|a s IH]; intros Hs; [done|].
  rewrite findall_J_unfold, NoJ_starts_with by done.
  apply IH. by eapply NoJ_tail.
Qed.

Lemma chunks_from_records c0 cs c :
  NoJ c0 → Forall NoJ cs → NoJ c →
  chunks_from (c0 +:+ records_text (cs ++ [c])) = (c0, cs ++ [Str.chomp c]).
Proof.
  intros H0 Hcs Hc. revert c0 H0.
  induction Hcs as [|c1 cs H1 Hcs IH]; intros c0 H0; cbn [records_text app].
  - rewrite chunks_from_next, str_app_nil_r, chunks_from_last by done. done.
  - rewrite chunks_from_next, IH by done. done.
Qed.

(** The chunks of a text: what stands before the first [[J]] is dropped,
    each [[J]] opens a chunk that runs up to the next [[J]], and the last
    chunk runs to the end of the text, less the line feed that ends it. *)
Lemma findall_J_records pre cs c :
  NoJ pre → Forall NoJ cs → NoJ c →
  findall_J (pre +:+ records_text (cs ++ [c])) = cs ++ [Str.chomp c].
Proof.
  intros Hpre Hcs Hc. destruct cs as [|c1 cs]; cbn [records_text app].
  - rewrite findall_J_skip, str_app_nil_r, chunks_from_last by done. done.
  - apply Forall_cons in Hcs as [H1 Hcs].
    rewrite findall_J_skip, chunks_from_records by done. done.
Qed.

Lemma Substring_app_l p s t : Str.Substring p s → Str.Substring p (s +:+ t).
Proof.
  intros (pre & post & ->). exists pre, (post +:+ t).
  by rewrite !str_app_assoc.
Qed.

Lemma NoJ_app_l s t : NoJ (s +:+ t) → NoJ s.
Proof.
  unfold NoJ. rewrite !contains_false. intros H Hs. by apply H, Substring_app_l.
Qed.

Lemma chomp_prefix s : ∃ x, s = Str.chomp s +:+ x.
Proof.
  induction s as [|a s [x IH]]; [by exists ""|].
  cbn [Str.chomp]. destruct (Str.at_dollar (String a s)).
  - by exists (String a s).
  - exists x. simpl. by rewrite <- IH.
Qed.

Lemma NoJ_chomp s : NoJ s → NoJ (Str.chomp s).
Proof.
  intros H. destruct (chomp_prefix s) as [x E]. rewrite E in H.
  by eapply NoJ_app_l.
Qed.

Lemma records_text_snoc_head cs c :
  ∃ x, records_text (cs ++ [c]) = tag "J" +:+ x.
Proof. destruct cs; simpl; eauto. Qed.

(** Every text is free of [[J]], or is made of a part free of [[J]] and
    of records whose bodies are free of it. *)
Lemma content_decompose s :
  NoJ s ∨
  ∃ pre cs c, NoJ pre ∧ Forall NoJ cs ∧ NoJ c ∧
              s = pre +:+ records_text (cs ++ [c]).
Proof.
  induction s as [|a s IH]; [by left|].
  destruct (Str.starts_with (tag "J") (String a s)) eqn:Hstart.
  - right. apply starts_with_spec in Hstart as [r Hr].
    change (tag "J" +:+ r) with (String "[" (String "J" (String "]" r))) in Hr.
    injection Hr as -> ->.
    destruct IH as [Hs|(pre & cs & c & Hpre & Hcs & Hc & E)].
    + exists "", [], r. split_and!; [done | done | | ].
      * by do 2 apply NoJ_tail in Hs.
      * simpl. by rewrite str_app_nil_r.
    + destruct (records_text_snoc_head cs c) as [x Hx].
      destruct pre as [|p1 [|p2 pre]]; rewrite Hx in E; [done | done |].
      change (tag "J" +:+ x) with (String "[" (String "J" (String "]" x))) in E.
      injection E as <- <- ->.
      exists "", (pre :: cs), c. split_and!; [done | | done |].
      * constructor; [|done]. by do 2 apply NoJ_tail in Hpre.
      * simpl. by rewrite Hx.
  - destruct IH as [Hs|(pre & cs & c & Hpre & Hcs & Hc & ->)].
    + left. by apply NoJ_cons.
    + right. exists (String a pre), cs, c. split_and!; [|done..].
      apply NoJ_cons. split; [|done].
      destruct (Str.starts_with (tag "J") (String a pre)) eqn:E; [|done].
      apply (starts_with_app_l _ _ (records_text (cs ++ [c]))) in E.
      simpl in E, Hstart. congruence.
Qed.

(** No chunk holds a [[J]]. *)
Lemma findall_J_NoJ content : Forall NoJ (findall_J content).
Proof.
  destruct (content_decompose content)
    as [H|(pre & cs & c & Hpre & Hcs & Hc & ->)].
  - by rewrite findall_J_none.
  - rewrite findall_J_records by done.
    apply Forall_app. split; [done|]. repeat constructor. by apply NoJ_chomp.
Qed.

Lemma NoJ_search s : NoJ s → re_search_tag "J" s = None.
Proof.
  intros H. apply re_search_tag_None. intros pre rest g -> (post & -> & _).
  unfold NoJ in H. apply contains_false in H. apply H.
  by exists pre, (g +:+ post).
Qed.

(** ** Lines *)

Lemma lines_nonempty s : Spec.lines s ≠ [].
Proof.
  destruct s as [|c s]; simpl; [done|].
  destruct (Ascii.eqb c Char.nl); [done|]. by destruct (Spec.lines s).
Qed.

Lemma lines_no_nl s : Forall (λ l, Str.no_nl l = true) (Spec.lines s).
Proof.
  induction s as [|c s IH]; simpl; [by repeat constructor|].
  destruct (Ascii.eqb c Char.nl) eqn:Ec; [by constructor|].
  destruct (Spec.lines s) as [|l ls]; [by repeat constructor; simpl; rewrite Ec|].
  apply Forall_cons in IH as [Hl Hls]. constructor; [|done].
  simpl. by rewrite Ec.
Qed.

Lemma join_lines_cons l l2 ls :
  Spec.join_lines (l :: l2 :: ls) = l +:+ String Char.nl (Spec.join_lines (l2 :: ls)).
Proof. done. Qed.

Lemma join_lines_lines s : Spec.join_lines (Spec.lines s) = s.
Proof.
  induction s as [|c s IH]; [done|]. cbn [Spec.lines].
  pose proof (lines_nonempty s) as Hne.
  destruct (Ascii.eqb_spec c Char.nl) as [->|Hc].
  - destruct (Spec.lines s) as [|l ls]; [done|].
    rewrite join_lines_cons, IH. done.
  - destruct (Spec.lines s) as [|l [|l2 ls]]; [done| |].
    + simpl in *. by rewrite IH.
    + rewrite join_lines_cons. rewrite join_lines_cons in IH. by rewrite <- IH.
Qed.

Lemma no_nl_app s t : Str.no_nl (s +:+ t) = Str.no_nl s && Str.no_nl t.
Proof.
  induction s as [|c s IH]; simpl; [done|]. by rewrite IH, andb_assoc.
Qed.

(** A prefix of [s +:+ t] lies in [s] or runs over into [t]. *)
Lemma starts_with_app_inv p s t :
  Str.starts_with p (s +:+ t) = true →
  Str.starts_with p s = true ∨
  ∃ q, q ≠ "" ∧ p = s +:+ q ∧ Str.starts_with q t = true.
Proof.
  revert p. induction s as [|a s IH]; intros p H.
  - destruct p as [|b p]; [by left|]. right. by exists (String b p).
  - destruct p as [|b p]; [by left|]. simpl in H.
    apply andb_true_iff in H as [Hab H]. apply Ascii.eqb_eq in Hab as ->.
    destruct (IH p H) as [Hs|(q & Hq & -> & Ht)].
    + left. simpl. by rewrite Ascii.eqb_refl.
    + right. by exists q.
Qed.

Lemma match_tag_at_starts_with X s g :
  match_tag_at X s = Some g → Str.starts_with (tag X) s = true.
Proof.
  unfold match_tag_at. intros H. apply starts_with_strip_prefix.
  by destruct (Str.strip_prefix (tag X) s).
Qed.

Lemma contains_starts_with p s :
  Str.contains p s = false → Str.starts_with p s = false.
Proof. destruct s; simpl; by intros [? _]%orb_false_iff. Qed.

Lemma contains_tail p s : Str.contains p s = false → Str.contains p (Str.tail s) = false.
Proof. destruct s as [|c s]; [done|]. simpl. by intros [_ ?]%orb_false_iff. Qed.

(** The search passes over a line that does not hold the tag. *)
Lemma re_search_skip_line X l rest :
  Str.no_nl X = true →
  Str.contains (tag X) l = false →
  Str.at_line_end rest = true →
  re_search_tag X (l +:+ rest) = re_search_tag X rest.
Proof.
  intros HX Hl Hrest. induction l as [|a l IH]; [done|].
  change (String a l +:+ rest) with (String a (l +:+ rest)).
  rewrite re_search_tag_cons.
  destruct (match_tag_at X (String a (l +:+ rest))) as [g|] eqn:E.
  - exfalso. apply match_tag_at_starts_with in E.
    change (String a (l +:+ rest)) with (String a l +:+ rest) in E.
    apply starts_with_app_inv in E as [E|(q & Hq & Ep & Eq)].
    + apply contains_starts_with in Hl. congruence.
    + destruct q as [|b q]; [done|]. destruct rest as [|c rest]; [done|].
      simpl in Hrest, Eq. apply andb_true_iff in Eq as [Ebc _].
      apply Ascii.eqb_eq in Ebc as ->.
      assert (Str.no_nl (tag X) = true) as Htag.
      { unfold tag. rewrite !no_nl_app, HX. done. }
      rewrite Ep, no_nl_app in Htag. simpl in Htag. rewrite Hrest in Htag.
      simpl in Htag. by rewrite andb_false_r in Htag.
  - apply IH. by apply contains_tail in Hl.
Qed.

Lemma re_search_tag_nl X s : re_search_tag X (String Char.nl s) = re_search_tag X s.
Proof. done. Qed.

Lemma re_search_tag_here X s g :
  match_tag_at X s = Some g → re_search_tag X s = Some g.
Proof.
  intros H. destruct s as [|c s]; [done|]. by rewrite re_search_tag_cons, H.
Qed.

(** On lines that hold the tag at their start or nowhere, the search
    finds the rest of the first line that begins with the tag. *)
Lemma re_search_join_lines X ls :
  Str.no_nl X = true →
  Forall (λ l, Str.no_nl l = true) ls →
  Forall (λ l, Str.contains (tag X) (Str.tail l) = false ∧ l ≠ tag X) ls →
  re_search_tag X (Spec.join_lines ls) = head (omap (Str.strip_prefix (tag X)) ls).
Proof.
  intros HX Hnl Hwf. induction ls as [|l ls IH]; [done|].
  apply Forall_cons in Hnl as [Hl Hnl]. apply Forall_cons in Hwf as [[Htail Hbare] Hwf].
  specialize (IH Hnl Hwf).
  assert (∃ rest, Spec.join_lines (l :: ls) = l +:+ rest ∧ Str.at_line_end rest = true ∧
                  re_search_tag X rest = head (omap (Str.strip_prefix (tag X)) ls))
    as (rest & -> & Hrest & Hsearch).
  { destruct ls as [|l2 ls].
    - exists "". by rewrite str_app_nil_r.
    - exists (String Char.nl (Spec.join_lines (l2 :: ls))). by rewrite re_search_tag_nl. }
  cbn [omap list_omap].
  destruct (Str.strip_prefix (tag X) l) as [g|] eqn:Eg.
  - apply strip_prefix_spec in Eg as ->. cbn [head].
    apply re_search_tag_here, match_tag_at_spec. exists rest.
    rewrite no_nl_app in Hl. apply andb_true_iff in Hl as [_ Hl].
    split_and!; [by rewrite str_app_assoc | | done | done].
    intros ->. by rewrite str_app_nil_r in Hbare.
  - rewrite re_search_skip_line; [done | done | | done].
    destruct l as [|a l]; [done|]. cbn [Str.contains Str.tail] in *.
    apply orb_false_iff. split; [|done].
    destruct (Str.starts_with (tag X) (String a l)) eqn:E; [|done].
    apply starts_with_strip_prefix in E as [? E]. congruence.
Qed.

(** In a chunk that is well formed for a tag, the parser finds the value
    that the field extraction rule describes. *)
Lemma field_well_formed X chunk :
  Str.no_nl X = true →
  Spec.TagAtLineStart X chunk →
  Str.strip <$> re_search_tag X chunk = Spec.field X chunk.
Proof.
  intros HX Hwf. unfold Spec.field, Spec.TagAtLineStart in *.
  rewrite <- (join_lines_lines chunk) at 1.
  rewrite re_search_join_lines; [|done|apply lines_no_nl|done].
  clear Hwf. generalize (Spec.lines chunk). intros ls.
  induction ls as [|l ls IH]; [done|]. cbn [omap list_omap].
  destruct (Str.strip_prefix (tag X) l) as [g|]; [done | apply IH].
Qed.

(** ** The splitting rule on well-formed contents *)

Lemma starts_with_J_nl a b :
  Str.starts_with (tag "J") (a +:+ String Char.nl b) = true →
  Str.starts_with (tag "J") a = true.
Proof.
  intros [H|(q & Hq & Ep & Eq)]%starts_with_app_inv; [done|]. exfalso.
  destruct q as [|c q]; [done|]. simpl in Eq.
  apply andb_true_iff in Eq as [Ec _]. apply Ascii.eqb_eq in Ec as ->.
  assert (Str.no_nl (tag "J") = true) as Hn by done.
  rewrite Ep, no_nl_app in Hn. simpl in Hn. by rewrite andb_false_r in Hn.
Qed.

Lemma NoJ_app_nl a b : NoJ a → NoJ b → NoJ (a +:+ String Char.nl b).
Proof.
  intros Ha Hb. induction a as [|x a IH].
  - by apply NoJ_cons.
  - change (String x a +:+ String Char.nl b) with (String x (a +:+ String Char.nl b)).
    apply NoJ_cons. split; [|apply IH; by eapply NoJ_tail].
    destruct (Str.starts_with (tag "J") (String x (a +:+ String Char.nl b))) eqn:E; [|done].
    apply (starts_with_J_nl (String x a)) in E.
    apply NoJ_starts_with in Ha. congruence.
Qed.

Lemma findall_J_line a rest :
  NoJ a → findall_J (a +:+ String Char.nl rest) = findall_J rest.
Proof.
  intros Ha. induction a as [|x a IH]; [done|].
  change (String x a +:+ String Char.nl rest) with (String x (a +:+ String Char.nl rest)).
  rewrite findall_J_unfold.
  destruct (Str.starts_with (tag "J") (String x (a +:+ String Char.nl rest))) eqn:E.
  - apply (starts_with_J_nl (String x a)) in E.
    apply NoJ_starts_with in Ha. congruence.
  - apply IH. by eapply NoJ_tail.
Qed.

Lemma join_lines_app_head a b ls :
  Spec.join_lines ((a +:+ b) :: ls) = a +:+ Spec.join_lines (b :: ls).
Proof. destruct ls; simpl; [done|]. by rewrite str_app_assoc. Qed.

Lemma join_lines_merge v l ls :
  Spec.join_lines (v :: l :: ls) = Spec.join_lines ((v +:+ String Char.nl l) :: ls).
Proof. destruct ls; [done|]. rewrite !join_lines_cons, str_app_assoc. done. Qed.

(** A header line is [[J]] and what stands behind it. *)
Lemma header_split l :
  Str.starts_with (tag "J") l = true → l = tag "J" +:+ Str.drop 3 l.
Proof.
  intros [r ->]%starts_with_spec. done.
Qed.

Lemma header_rest_NoJ l :
  Str.starts_with (tag "J") l = true → NoJ (Str.tail l) → NoJ (Str.drop 3 l).
Proof.
  intros [r ->]%starts_with_spec H. simpl in *. by do 2 apply NoJ_tail in H.
Qed.

Lemma plain_line_NoJ l :
  Str.starts_with (tag "J") l = false → NoJ (Str.tail l) → NoJ l.
Proof. destruct l as [|a l]; [done|]. intros. by apply NoJ_cons. Qed.

Lemma chunks_from_lines ls v :
  NoJ v → Forall (λ l, NoJ (Str.tail l)) ls →
  (chunks_from (Spec.join_lines (v :: ls))).1 :: (chunks_from (Spec.join_lines (v :: ls))).2
  = Spec.chunks_in v ls.
Proof.
  intros Hv Hwf. revert v Hv.
  induction Hwf as [|l ls Hl Hwf IH]; intros v Hv.
  - simpl. by rewrite chunks_from_last.
  - cbn [Spec.chunks_in].
    destruct (Str.starts_with (tag "J") l) eqn:E.
    + rewrite join_lines_cons, (header_split l E), join_lines_app_head.
      replace (v +:+ String Char.nl (tag "J" +:+ Spec.join_lines (Str.drop 3 l :: ls)))
        with ((v +:+ String Char.nl "") +:+ tag "J" +:+ Spec.join_lines (Str.drop 3 l :: ls))
        by by rewrite str_app_assoc.
      rewrite chunks_from_next by by apply NoJ_app_nl.
      cbn [fst snd]. rewrite IH by by apply header_rest_NoJ.
      by rewrite <- (header_split l E).
    + rewrite join_lines_merge. apply IH.
      apply NoJ_app_nl; [done|]. by apply plain_line_NoJ.
Qed.

Lemma findall_J_lines ls :
  Forall (λ l, NoJ (Str.tail l)) ls →
  findall_J (Spec.join_lines ls) = Spec.chunks_out ls.
Proof.
  induction 1 as [|l ls Hl Hwf IH]; [done|].
  cbn [Spec.chunks_out].
  destruct (Str.starts_with (tag "J") l) eqn:E.
  - rewrite (header_split l E) at 1. rewrite join_lines_app_head, findall_J_J.
    apply chunks_from_lines; [by apply header_rest_NoJ | done].
  - pose proof (plain_line_NoJ l E Hl) as HNoJ.
    destruct ls as [|l2 ls].
    + simpl. by apply findall_J_none.
    + rewrite join_lines_cons, findall_J_line by done. apply IH.
Qed.

Lemma body_lines_no_record ls : Spec.records ls = [] → Spec.body_lines ls = ls.
Proof.
  induction ls as [|l ls IH]; [done|]. cbn [Spec.records Spec.body_lines].
  destruct (Str.starts_with (tag "J") l); [done|]. intros H. by rewrite IH.
Qed.

Lemma record_body_header l body :
  Str.starts_with (tag "J") l = true →
  Spec.record_body (l :: body) = Spec.join_lines (Str.drop 3 l :: body).
Proof.
  intros E. unfold Spec.record_body.
  rewrite (header_split l E) at 1. by rewrite join_lines_app_head.
Qed.

Lemma chunks_in_records ls v :
  Spec.chunks_in v ls =
  match Spec.records ls with
  | [] => [Str.chomp (Spec.join_lines (v :: ls))]
  | _ :: _ =>
      (Spec.join_lines (v :: Spec.body_lines ls) +:+ String Char.nl "")
        :: Spec.chunk_texts (Spec.records ls)
  end.
Proof.
  revert v. induction ls as [|l ls IH]; intros v; [done|].
  cbn [Spec.chunks_in Spec.records Spec.body_lines].
  destruct (Str.starts_with (tag "J") l) eqn:E.
  - f_equal. rewrite IH. cbn [Spec.chunk_texts].
    rewrite record_body_header by done.
    destruct (Spec.records ls) eqn:Er; [|done].
    by rewrite body_lines_no_record.
  - rewrite IH. destruct (Spec.records ls); by rewrite join_lines_merge.
Qed.

Lemma chunks_out_records ls :
  Spec.chunks_out ls = Spec.chunk_texts (Spec.records ls).
Proof.
  induction ls as [|l ls IH]; [done|].
  cbn [Spec.chunks_out Spec.records].
  destruct (Str.starts_with (tag "J") l) eqn:E; [|done].
  rewrite chunks_in_records. cbn [Spec.chunk_texts].
  rewrite record_body_header by done.
  destruct (Spec.records ls) eqn:Er; [|done].
  by rewrite body_lines_no_record.
Qed.

(** On a content in which [[J]] stands only at the start of lines, the
    pattern splits as the splitting rule says. *)
Lemma findall_J_well_formed content :
  Spec.JAtLineStart content → findall_J content = Spec.chunks content.
Proof.
  intros Hwf. unfold Spec.chunks. rewrite <- chunks_out_records.
  rewrite <- (join_lines_lines content) at 1. by apply findall_J_lines.
Qed.

Lemma chunk_texts_length rs : length (Spec.chunk_texts rs) = length rs.
Proof.
  induction rs as [|r rs IH]; [done|].
  cbn [Spec.chunk_texts]. destruct rs; [done|]. simpl in *. by rewrite IH.
Qed.

Lemma records_length ls :
  length (Spec.records ls) = length (List.filter (Str.starts_with (tag "J")) ls).
Proof.
  induction ls as [|l ls IH]; [done|].
  cbn [Spec.records List.filter].
  destruct (Str.starts_with (tag "J") l); simpl; by rewrite IH.
Qed.

(** On such a content there is one chunk for each line that begins with
    [[J]]. *)
Lemma findall_J_count content :
  Spec.JAtLineStart content →
  length (findall_J content)
  = length (List.filter (Str.starts_with (tag "J")) (Spec.lines content)).
Proof.
  intros Hwf. rewrite findall_J_well_formed by done.
  unfold Spec.chunks. by rewrite chunk_texts_length, records_length.
Qed.

(** ** The splitting and the fields of a load *)

(** C5, as stated, fails: in [inline_J] one line begins with [[J]], so
    that the splitting rule gives one record; the pattern splits at the
    [[J]] inside the second line too, and the load yields two records. *)
Lemma split_rule_counterexample :
  Spec.records (Spec.lines Example.inline_J)
    = [["[J]1"; "[Q]a [J]2"; "[Q]b"; ""]] ∧
  findall_J Example.inline_J
    = ["1" +:+ Example.nl +:+ "[Q]a "; "2" +:+ Example.nl +:+ "[Q]b"] ∧
  question <$> questions (load_from_file (os := Example.sample_os)
                            QuestionBank_init "/bank/inline.txt" None).1
    = ["a"; "b"].
Proof. by vm_compute. Qed.

Section SplitFacts.

Context `{os : Os}.

(** C5, amended: the content is split at each occurrence of [[J]],
    wherever in a line it stands.  What stands before the first [[J]] is
    dropped; a chunk is the text between a [[J]] and the next one, and the
    last chunk runs to the end of the content, less the line feed that
    ends it.  Every content is of this form or has no [[J]] and gives no
    chunk.  On a content in which [[J]] stands only at the start of
    lines, the chunks are those of the splitting rule: one for each line
    that begins with [[J]].  The records of a load are those parsed from
    the chunks, in the order of the chunks. *)
Theorem split_rule :
  (∀ pre cs c,
     NoJ pre → Forall NoJ cs → NoJ c →
     findall_J (pre +:+ records_text (cs ++ [c])) = cs ++ [Str.chomp c]) ∧
  (∀ content, NoJ content → findall_J content = []) ∧
  (∀ content,
     NoJ content ∨
     ∃ pre cs c, NoJ pre ∧ Forall NoJ cs ∧ NoJ c ∧
                 content = pre +:+ records_text (cs ++ [c])) ∧
  (∀ content,
     Spec.JAtLineStart content →
     findall_J content = Spec.chunks content ∧
     length (findall_J content)
     = length (List.filter (Str.starts_with (tag "J")) (Spec.lines content))) ∧
  (∀ self filepath dir content,
     read_text filepath = Some content →
     let self' := (load_from_file self filepath dir).1 in
     questions self' = omap (_parse_question self') (findall_J content)).
Proof.
  split_and!.
  - apply findall_J_records.
  - apply findall_J_none.
  - apply content_decompose.
  - intros content Hwf. split; [by apply findall_J_well_formed|].
    by apply findall_J_count.
  - intros self filepath dir content Hread.
    by destruct (load_from_file_read self filepath dir content Hread) as (_ & _ & H).
Qed.

(** C10: a chunk without a [Q] value gives no record, and the chunks
    after it are parsed all the same; so every record of a load has a
    question body that is not empty, and its option letters are among A,
    B, C and D. *)
Theorem discard_rule :
  (∀ self text, field_value "Q" text = "" → _parse_question self text = None) ∧
  (∀ self filepath dir content cs1 c cs2,
     read_text filepath = Some content →
     findall_J content = cs1 ++ c :: cs2 →
     field_value "Q" c = "" →
     let self' := (load_from_file self filepath dir).1 in
     questions self'
       = omap (_parse_question self') cs1 ++ omap (_parse_question self') cs2) ∧
  (∀ self filepath dir content q,
     read_text filepath = Some content →
     q ∈ questions (load_from_file self filepath dir).1 →
     question q ≠ "" ∧ dom (options q) ⊆ {[ "A"; "B"; "C"; "D" ]}).
Proof.
  split_and!.
  - intros self text. apply parse_question_None.
  - intros self filepath dir content cs1 c cs2 Hread Hcs HQ.
    destruct (load_from_file_read self filepath dir content Hread) as (_ & _ & H).
    cbv zeta in *. rewrite H, Hcs, omap_app. f_equal. simpl.
    by rewrite (proj2 (parse_question_None _ c)).
  - intros self filepath dir content q Hread Hq.
    destruct (load_from_file_read self filepath dir content Hread) as (_ & _ & H).
    cbv zeta in H. rewrite H in Hq.
    apply list_elem_of_omap in Hq as (text & _ & Hparse).
    apply parse_question_Some in Hparse as [HQ ->]. split; [done|].
    etrans; [apply parsed_options_dom|]. set_solver.
Qed.

(** The public number of a loaded record is always empty: the chunk
    begins behind its [[J]] and holds no other. *)
Lemma load_j_id_empty self filepath dir content :
  read_text filepath = Some content →
  Forall (λ q, j_id q = "") (questions (load_from_file self filepath dir).1).
Proof.
  intros Hread.
  destruct (load_from_file_read self filepath dir content Hread) as (_ & _ & H).
  cbv zeta in H. rewrite H. apply Forall_forall. intros q Hq.
  apply list_elem_of_omap in Hq as (text & Htext & Hparse).
  apply parse_question_Some in Hparse as [_ ->]. simpl.
  pose proof (findall_J_NoJ content) as HJ.
  rewrite Forall_forall in HJ. specialize (HJ text Htext).
  unfold field_value. by rewrite NoJ_search.
Qed.

End SplitFacts.

Lemma split_rule_witness :
  (NoJ "junk" ∧ Forall NoJ ["a"] ∧ NoJ ("b" +:+ Example.nl) ∧
   findall_J ("junk" +:+ records_text (["a"] ++ ["b" +:+ Example.nl]))
     = ["a"] ++ [Str.chomp ("b" +:+ Example.nl)]) ∧
  (Spec.JAtLineStart Example.sample ∧
   findall_J Example.sample = Spec.chunks Example.sample ∧
   length (findall_J Example.sample)
   = length (List.filter (Str.starts_with (tag "J")) (Spec.lines Example.sample))) ∧
  (read_text (Os := Example.sample_os) "/bank/tk.txt" = Some Example.sample ∧
   let self' := (load_from_file (os := Example.sample_os) QuestionBank_init
                   "/bank/tk.txt" None).1 in
   questions self'
     = omap (_parse_question (os := Example.sample_os) self')
            (findall_J Example.sample)).
Proof.
  assert (NoJ "junk") as H1 by reflexivity.
  assert (Forall NoJ ["a"]) as H2 by (repeat constructor).
  assert (NoJ ("b" +:+ Example.nl)) as H3 by reflexivity.
  assert (Spec.JAtLineStart Example.sample) as H4 by (repeat constructor).
  destruct (split_rule (os := Example.sample_os)) as (Ha & _ & _ & Hb & Hc).
  split_and!; [exact H1 | exact H2 | exact H3 | | exact H4 | | | reflexivity |].
  - exact (Ha "junk" ["a"] ("b" +:+ Example.nl) H1 H2 H3).
  - exact (proj1 (Hb Example.sample H4)).
  - exact (proj2 (Hb Example.sample H4)).
  - exact (Hc QuestionBank_init "/bank/tk.txt" None Example.sample eq_refl).
Defined.

Lemma discard_rule_witness :
  (field_value "Q" "[P]1.1" = "" ∧
   _parse_question (os := Example.sample_os) Example.sample_bank "[P]1.1" = None) ∧
  (read_text (Os := Example.sample_os) "/bank/bodiless.txt" = Some Example.bodiless ∧
   findall_J Example.bodiless
     = [] ++ ("1" +:+ Example.nl +:+ "[P]1.1" +:+ Example.nl)
          :: ["2" +:+ Example.nl +:+ "[Q]b"] ∧
   field_value "Q" ("1" +:+ Example.nl +:+ "[P]1.1" +:+ Example.nl) = "" ∧
   let self' := (load_from_file (os := Example.sample_os) Example.sample_bank
                   "/bank/bodiless.txt" None).1 in
   questions self'
     = omap (_parse_question (os := Example.sample_os) self') []
       ++ omap (_parse_question (os := Example.sample_os) self')
            ["2" +:+ Example.nl +:+ "[Q]b"]) ∧
  (read_text (Os := Example.sample_os) "/bank/tk.txt" = Some Example.sample ∧
   Example.sample_question
     ∈ questions (load_from_file (os := Example.sample_os) QuestionBank_init
                    "/bank/tk.txt" None).1 ∧
   question Example.sample_question ≠ "" ∧
   dom (options Example.sample_question) ⊆ {[ "A"; "B"; "C"; "D" ]}).
Proof.
  destruct (discard_rule (os := Example.sample_os)) as (Ha & Hb & Hc).
  assert (Example.sample_question
            ∈ questions (load_from_file (os := Example.sample_os) QuestionBank_init
                           "/bank/tk.txt" None).1) as Hin by (vm_compute; left).
  split_and!;
    [reflexivity | | reflexivity | reflexivity | reflexivity | |
     reflexivity | exact Hin | |].
  - apply Ha. reflexivity.
  - exact (Hb Example.sample_bank "/bank/bodiless.txt" None Example.bodiless
              [] ("1" +:+ Example.nl +:+ "[P]1.1" +:+ Example.nl)
              ["2" +:+ Example.nl +:+ "[Q]b"] eq_refl eq_refl eq_refl).
  - exact (proj1 (Hc QuestionBank_init "/bank/tk.txt" None Example.sample
                     Example.sample_question eq_refl Hin)).
  - exact (proj2 (Hc QuestionBank_init "/bank/tk.txt" None Example.sample
                     Example.sample_question eq_refl Hin)).
Defined.

(** C1: the load of the record of the scenario gives one record whose
    chapter, internal code, body, options and answer are the trimmed
    values of its tags and which has no picture; its public number is
    empty and not ["Q001"].  This holds of every load: no record of a bank
    that was read from a file has a public number. *)
Theorem load_sample_display_id :
  load_from_file (os := Example.sample_os) QuestionBank_init
    "/bank/tk.txt" (Some "/media")
  = ({| questions :=
          [ {| j_id := ""; p_id := "1.2.1"; i_id := "MC";
               question := "What is X?"; answer := "A";
               options := {[ "A" := "OptA"; "B" := "OptB" ]};
               image_path := None |} ];
        photo_dir := "/media" |}, true) ∧
  re_search_tag "J" Example.sample = Some "Q001" ∧
  (∀ (os : Os) self filepath dir content,
     read_text filepath = Some content →
     Forall (λ q, j_id q = "") (questions (load_from_file self filepath dir).1)).
Proof.
  split_and!; [by vm_compute | by vm_compute |].
  intros os. apply load_j_id_empty.
Qed.

Lemma load_sample_display_id_witness :
  read_text (Os := Example.sample_os) "/bank/tk.txt" = Some Example.sample ∧
  Forall (λ q, j_id q = "")
    (questions (load_from_file (os := Example.sample_os) QuestionBank_init
                  "/bank/tk.txt" None).1).
Proof.
  split; [reflexivity|].
  destruct load_sample_display_id as (_ & _ & H).
  apply (H Example.sample_os QuestionBank_init "/bank/tk.txt" None Example.sample).
  reflexivity.
Defined.

(** C6, as stated, fails.  In the chunk ["[Q]a [P]b"] no line is of the
    form [[P]rest], so that the chapter is to stay at its default; the
    parser takes ["b"] from inside the line of the body.  In the chunk of
    the lines ["[Q]a"], ["[P]"], ["[P]b"] the first line of the tag [P]
    gives the empty value; the parser passes it over and takes ["b"] from
    the second. *)
Lemma field_extraction_counterexample :
  Spec.field "P" "[Q]a [P]b" = None ∧
  p_id <$> _parse_question (os := Example.sample_os) Example.sample_bank
             "[Q]a [P]b" = Some "b" ∧
  Spec.field "P" ("[Q]a" +:+ Example.nl +:+ "[P]" +:+ Example.nl +:+ "[P]b")
    = Some "" ∧
  p_id <$> _parse_question (os := Example.sample_os) Example.sample_bank
             ("[Q]a" +:+ Example.nl +:+ "[P]" +:+ Example.nl +:+ "[P]b")
    = Some "b".
Proof. by vm_compute. Qed.

Section FieldFacts.

Context `{os : Os}.

(** C6, amended: in the text given to the parser, the value of a tag X
    among J, P, I, Q, T, A, B, C, D, F is taken at the leftmost place,
    at the start of a line or inside one, where [[X]] is followed by a
    character other than a line feed; it is the rest of that line,
    trimmed.  An earlier [[X]] that ends its line is passed over.  When
    there is no such place the field keeps its default: the empty string,
    no entry among the options, no picture.  One of the two cases always
    holds.  In a text in which [[X]] stands only at the start of lines,
    and no line is the bare tag, the value is the one of the field
    extraction rule: the trimmed rest of the first line of the form
    [[X]rest], or the default. *)
Theorem field_extraction self text q :
  _parse_question self text = Some q →
  Forall (λ '(X, get),
            (∀ g, FirstTagMatch X g text → get q = Str.strip g) ∧
            (NoTagMatch X text → get q = ""))
         scalar_fields ∧
  Forall (λ X,
            (∀ g, FirstTagMatch X g text → options q !! X = Some (Str.strip g)) ∧
            (NoTagMatch X text → options q !! X = None))
         option_letters ∧
  (∀ g, FirstTagMatch "F" g text →
        image_path q =
        if Str.is_empty (photo_dir self) then None
        else resolve_image (photo_dir self) (Str.strip g)) ∧
  (NoTagMatch "F" text → image_path q = None) ∧
  (∀ X, NoTagMatch X text ∨ ∃ g, FirstTagMatch X g text) ∧
  Forall (λ '(X, get),
            Spec.TagAtLineStart X text → get q = default "" (Spec.field X text))
         scalar_fields ∧
  Forall (λ X, Spec.TagAtLineStart X text → options q !! X = Spec.field X text)
         option_letters ∧
  scalar_fields = [("J", j_id); ("P", p_id); ("I", i_id); ("Q", question); ("T", answer)] ∧
  option_letters = ["A"; "B"; "C"; "D"].
Proof.
  intros [_ ->]%parse_question_Some.
  assert (∀ X, (∀ g, FirstTagMatch X g text → field_value X text = Str.strip g) ∧
               (NoTagMatch X text → field_value X text = "")) as Hfield.
  { intros X. unfold field_value. split.
    - by intros g ->%re_search_tag_Some.
    - by intros ->%re_search_tag_None. }
  split_and!; [| | | | | | | done | done].
  - repeat constructor; apply Hfield.
  - apply Forall_forall. intros X HX. simpl.
    rewrite parsed_options_lookup, decide_True by done. split.
    + by intros g ->%re_search_tag_Some.
    + by intros ->%re_search_tag_None.
  - intros g Hg%re_search_tag_Some. simpl. unfold parsed_image. by rewrite Hg.
  - intros Hnone%re_search_tag_None. simpl. unfold parsed_image. by rewrite Hnone.
  - intros X. destruct (re_search_tag X text) as [g|] eqn:E.
    + right. exists g. by apply re_search_tag_Some.
    + left. by apply re_search_tag_None.
  - repeat constructor; intros Hwf; simpl; unfold field_value;
      by rewrite field_well_formed.
  - apply Forall_forall. intros X HX Hwf. simpl.
    rewrite parsed_options_lookup, decide_True by done.
    apply field_well_formed; [|done].
    unfold option_letters in HX. set_unfold in HX. by destruct_or!; subst.
Qed.

End FieldFacts.

Lemma field_extraction_witness :
  _parse_question (os := Example.sample_os) Example.sample_bank "[Q]a [P]b"
  = Some (parsed (os := Example.sample_os) Example.sample_bank "[Q]a [P]b") ∧
  FirstTagMatch "P" "b" "[Q]a [P]b" ∧
  p_id (parsed (os := Example.sample_os) Example.sample_bank "[Q]a [P]b")
  = Str.strip "b" ∧
  Spec.TagAtLineStart "Q" "[Q]a [P]b" ∧
  question (parsed (os := Example.sample_os) Example.sample_bank "[Q]a [P]b")
  = default "" (Spec.field "Q" "[Q]a [P]b").
Proof.
  assert (_parse_question (os := Example.sample_os) Example.sample_bank "[Q]a [P]b"
          = Some (parsed (os := Example.sample_os) Example.sample_bank "[Q]a [P]b"))
    as Hparse by reflexivity.
  assert (FirstTagMatch "P" "b" "[Q]a [P]b") as Hfirst
    by (apply re_search_tag_Some; reflexivity).
  assert (Spec.TagAtLineStart "Q" "[Q]a [P]b") as Hwf
    by (repeat constructor; discriminate).
  split_and!; [exact Hparse | exact Hfirst | | exact Hwf |];
    destruct (field_extraction (os := Example.sample_os) _ _ _ Hparse)
      as (H & _ & _ & _ & _ & Hs & _).
  - apply Forall_cons in H as [_ H]. apply Forall_cons in H as [[H _] _].
    exact (H "b" Hfirst).
  - do 3 apply Forall_cons in Hs as [_ Hs]. apply Forall_cons in Hs as [Hs _].
    exact (Hs Hwf).
Defined.

(** * Further properties of the question bank *)

(** ** The searches *)

Lemma filter_sublist_impl {A} (P Q : A → Prop)
    `{!∀ x, Decision (P x), !∀ x, Decision (Q x)} (l : list A) :
  (∀ x, P x → Q x) → filter P l `sublist_of` filter Q l.
Proof.
  intros HPQ. rewrite <- (list_filter_filter_l P Q l HPQ). apply sublist_filter.
Qed.

Lemma collect_sublist (test : Question → bool) qs : collect test qs `sublist_of` qs.
Proof. rewrite collect_filter. apply sublist_filter. Qed.



(** X2.  Each of the three searches returns a sublist of the bank: records
    of the bank, in the order of the bank, none of them twice as often as
    the bank has it. *)
Theorem search_sublist self query :
  search_by_keyword self query `sublist_of` questions self ∧
  search_by_chapter self query `sublist_of` questions self ∧
  search_by_id self query `sublist_of` questions self.
Proof.
  unfold search_by_keyword, search_by_chapter, search_by_id.
  destruct (Str.is_empty query); split_and!;
    first [reflexivity | apply collect_sublist].
Qed.

(** X3.  What [search_by_chapter] finds for a query, [search_by_keyword]
    finds for the same query: the keyword search looks at the chapter
    code too. *)
Theorem search_by_chapter_within_keyword self query :
  search_by_chapter self query `sublist_of` search_by_keyword self query.
Proof.
  unfold search_by_keyword, search_by_chapter.
  destruct (Str.is_empty query); [reflexivity|].
  rewrite !collect_filter. apply filter_sublist_impl.
  intros q Hq. unfold keyword_test. rewrite Hq.
  by destruct (_fuzzy_match _ (question q)), (_fuzzy_match _ (j_id q)).
Qed.

(** X4.  A query of white space only, not empty, finds nothing in any of
    the three searches: the test for the empty query comes before the
    trimming, and the empty pattern matches no text. *)
Theorem search_blank_query self query :
  Blank query → query ≠ "" →
  search_by_keyword self query = [] ∧
  search_by_chapter self query = [] ∧
  search_by_id self query = [].
Proof. apply search_blank. Qed.

Lemma search_blank_query_witness :
  Blank "  " ∧ "  " ≠ "" ∧
  search_by_keyword Example.sample_bank "  " = [] ∧
  search_by_chapter Example.sample_bank "  " = [] ∧
  search_by_id Example.sample_bank "  " = [].
Proof.
  split_and!; [reflexivity | discriminate | ..];
    destruct (search_blank_query Example.sample_bank "  ") as (H1 & H2 & H3);
    first [reflexivity | discriminate | exact H1 | exact H2 | exact H3].
Defined.

(** ** The fuzzy match *)

Lemma lower_lower c : Char.lower (Char.lower c) = Char.lower c.
Proof. by destruct c as [[] [] [] [] [] [] [] []]. Qed.

Lemma normalize_char_idem c : normalize_char (normalize_char c) = normalize_char c.
Proof. by destruct c as [[] [] [] [] [] [] [] []]. Qed.

Lemma normalize_char_of_lower c : normalize_char (Char.lower c) = normalize_char c.
Proof. by destruct c as [[] [] [] [] [] [] [] []]. Qed.

Lemma str_map_nil f s : Str.map f s = "" ↔ s = "".
Proof. by destruct s. Qed.

Lemma fuzzy_match_eq pattern pattern' text text' :
  Str.map normalize_char pattern = Str.map normalize_char pattern' →
  Str.map normalize_char text = Str.map normalize_char text' →
  _fuzzy_match pattern text = _fuzzy_match pattern' text'.
Proof.
  intros Ep Et. apply eq_true_iff_eq.
  rewrite !fuzzy_match_normalized, Ep, Et.
  rewrite <- (str_map_nil normalize_char pattern), <- (str_map_nil normalize_char text).
  rewrite <- (str_map_nil normalize_char pattern'), <- (str_map_nil normalize_char text').
  by rewrite Ep, Et.
Qed.

(** X5.  [_fuzzy_match] sees a pattern and a text only through their
    normalized forms: two patterns, and two texts, that differ in case or
    in the choice among [l], [I], [1] or among [o], [O], [0] give the same
    answer.  So does a pattern or a text put into lower case or
    normalized beforehand. *)
Theorem fuzzy_match_invariant :
  (∀ pattern pattern' text text',
     Str.map normalize_char pattern = Str.map normalize_char pattern' →
     Str.map normalize_char text = Str.map normalize_char text' →
     _fuzzy_match pattern text = _fuzzy_match pattern' text') ∧
  (∀ pattern text,
     _fuzzy_match (Str.lower pattern) (Str.lower text) = _fuzzy_match pattern text) ∧
  (∀ pattern text,
     _fuzzy_match (Str.map normalize_char pattern) (Str.map normalize_char text)
     = _fuzzy_match pattern text).
Proof.
  split_and!.
  - apply fuzzy_match_eq.
  - intros. apply fuzzy_match_eq; unfold Str.lower; rewrite str_map_map;
      apply str_map_ext; intros c; apply normalize_char_of_lower.
  - intros. apply fuzzy_match_eq; rewrite str_map_map;
      apply str_map_ext; intros c; apply normalize_char_idem.
Qed.

Lemma fuzzy_match_invariant_witness :
  Str.map normalize_char "Coil" = Str.map normalize_char "c0I1" ∧
  Str.map normalize_char "A LOOP" = Str.map normalize_char "a l0Op" ∧
  _fuzzy_match "Coil" "A LOOP" = _fuzzy_match "c0I1" "a l0Op".
Proof.
  split_and!; [reflexivity | reflexivity |].
  destruct fuzzy_match_invariant as (H & _ & _).
  apply (H "Coil" "c0I1" "A LOOP" "a l0Op"); reflexivity.
Defined.







(** ** Loading *)

Section LoadMore.

Context `{os : Os}.

Lemma resolve_image_Some dir name p :
  resolve_image dir name = Some p →
  ∃ p', p = path_abspath p' ∧ path_exists p' = true ∧
        (p' = path_join (path_abspath dir) name ∨
         ∃ ext, ext ∈ image_extensions ∧
                p' = path_join (path_abspath dir) (fst (path_splitext name) +:+ ext)).
Proof.
  unfold resolve_image. rewrite try_extensions_find.
  destruct (path_exists (path_join (path_abspath dir) name)) eqn:E; cbn [negb].
  - rewrite E. intros [= <-]. eauto.
  - destruct (List.find _ image_extensions) as [ext|] eqn:F.
    + apply find_some in F as [Hin Hex]. rewrite Hex. intros [= <-].
      eexists. split_and!; [done | done |]. right. exists ext.
      by rewrite list_elem_of_In.
    + by rewrite E.
Qed.

Lemma load_from_file_true self filepath dir :
  (load_from_file self filepath dir).2 = true →
  questions (load_from_file self filepath dir).1 ≠ [].
Proof.
  unfold load_from_file. destruct (read_text filepath); [|done]. cbn [fst snd].
  intros H E. rewrite E in H. done.
Qed.

Lemma load_from_file_false self filepath dir :
  (load_from_file self filepath dir).2 = false →
  questions (load_from_file self filepath dir).1 = [] ∨
  read_text filepath = None ∧
  questions (load_from_file self filepath dir).1 = questions self.
Proof.
  unfold load_from_file. destruct (read_text filepath); [|by right]. cbn [fst snd].
  intros H. left. by destruct (questions _).
Qed.

(** X7.  A question of a bank that has been loaded has a picture only
    when the bank has a picture directory, and then the path of the
    picture is the absolute form of a path that exists: the path of the
    name in the field [[F]] of its record, trimmed, in the directory, or
    this name with its extension replaced by one of the six. *)
Theorem loaded_image_exists self filepath dir content q p :
  read_text filepath = Some content →
  q ∈ questions (load_from_file self filepath dir).1 →
  image_path q = Some p →
  let self' := (load_from_file self filepath dir).1 in
  let abs_photo_dir := path_abspath (photo_dir self') in
  photo_dir self' ≠ "" ∧
  ∃ text g p',
    text ∈ findall_J content ∧ re_search_tag "F" text = Some g ∧
    p = path_abspath p' ∧ path_exists p' = true ∧
    (p' = path_join abs_photo_dir (Str.strip g) ∨
     ∃ ext, ext ∈ image_extensions ∧
            p' = path_join abs_photo_dir
                   (fst (path_splitext (Str.strip g)) +:+ ext)).
Proof.
  intros Hread Hq Hp self' abs_photo_dir. subst abs_photo_dir.
  destruct (load_from_file_read self filepath dir content Hread) as (_ & _ & E).
  fold self' in E, Hq. rewrite E in Hq.
  apply list_elem_of_omap in Hq as (text & Hin & Hparse).
  apply parse_question_Some in Hparse as [_ ->].
  cbn [image_path parsed] in Hp. unfold parsed_image in Hp.
  destruct (re_search_tag "F" text) as [g|] eqn:Hg; [|done]. cbn in Hp.
  destruct (Str.is_empty (photo_dir self')) eqn:Hd; [done|].
  apply is_empty_false in Hd. split; [done|].
  apply resolve_image_Some in Hp as (p' & -> & Hex & Hp').
  by exists text, g, p'.
Qed.

(** X8.  A load never merges.  When the file is read, the bank after the
    load and the value returned do not depend on the bank before it.  When
    it cannot be read, the questions stay and the picture directory is
    replaced all the same.  A picture directory that is given and not
    empty is the one the bank has afterwards, whatever happens to the
    file. *)
Theorem load_replaces :
  (∀ self self' filepath dir content,
     read_text filepath = Some content →
     load_from_file self filepath dir = load_from_file self' filepath dir) ∧
  (∀ self filepath dir,
     read_text filepath = None →
     load_from_file self filepath dir
     = ({| questions := questions self;
           photo_dir := choose_photo_dir filepath dir |}, false)) ∧
  (∀ self filepath d,
     d ≠ "" → photo_dir (load_from_file self filepath (Some d)).1 = d).
Proof.
  split_and!.
  - intros self self' filepath dir content H. unfold load_from_file. by rewrite H.
  - intros self filepath dir H. by rewrite load_from_file_unreadable.
  - intros self filepath d Hd%is_empty_false. unfold load_from_file.
    destruct (read_text filepath).
    + cbn [fst]. rewrite load_steps. cbn. by rewrite Hd.
    + cbn. by rewrite Hd.
Qed.

End LoadMore.

Lemma loaded_image_exists_witness :
  let self' := (load_from_file (os := Example.png_os) QuestionBank_init
                  "/bank/pictured.txt" (Some "/media")).1 in
  let q := {| j_id := ""; p_id := ""; i_id := ""; question := "Which antenna?";
              answer := ""; options := ∅; image_path := Some "/media/img1.png" |} in
  read_text (Os := Example.png_os) "/bank/pictured.txt" = Some Example.pictured ∧
  q ∈ questions self' ∧
  image_path q = Some "/media/img1.png" ∧
  photo_dir self' ≠ "".
Proof.
  intros self' q.
  assert (q ∈ questions self') as Hq by (by left).
  split_and!; [reflexivity | exact Hq | reflexivity |].
  destruct (loaded_image_exists (os := Example.png_os) QuestionBank_init
              "/bank/pictured.txt" (Some "/media") Example.pictured q
              "/media/img1.png" eq_refl Hq eq_refl) as [H _].
  exact H.
Defined.

Lemma load_replaces_witness :
  (read_text (Os := Example.sample_os) "/bank/tk.txt" = Some Example.sample ∧
   load_from_file (os := Example.sample_os) QuestionBank_init "/bank/tk.txt" None
   = load_from_file (os := Example.sample_os) ExampleApp.two_bank "/bank/tk.txt" None) ∧
  (read_text (Os := Example.sample_os) "/bank/missing.txt" = None ∧
   load_from_file (os := Example.sample_os) ExampleApp.two_bank "/bank/missing.txt" None
   = ({| questions := questions ExampleApp.two_bank;
         photo_dir := choose_photo_dir (os := Example.sample_os)
                        "/bank/missing.txt" None |}, false)) ∧
  ("/pictures" ≠ "" ∧
   photo_dir (load_from_file (os := Example.sample_os) ExampleApp.two_bank
                "/bank/missing.txt" (Some "/pictures")).1 = "/pictures").
Proof.
  destruct (@load_replaces Example.sample_os) as (H1 & H2 & H3).
  split_and!; [reflexivity | | reflexivity | | discriminate |].
  - apply (H1 _ _ _ _ Example.sample). reflexivity.
  - apply H2. reflexivity.
  - apply H3. discriminate.
Defined.

(** * Properties of the application *)

(** ** Sorting and joining *)

Lemma sorted_Permutation l : sorted l ≡ₚ l.
Proof. apply merge_sort_Permutation. Qed.

Lemma sorted_Sorted l : Sorted String.le (sorted l).
Proof. apply (Sorted_merge_sort String.le). Qed.

Lemma sorted_perm l l' : l ≡ₚ l' → sorted l = sorted l'.
Proof.
  intros H. apply (Sorted_unique String.le); [apply sorted_Sorted..|].
  by rewrite !sorted_Permutation.
Qed.

Lemma sorted_inj l l' : sorted l = sorted l' → l ≡ₚ l'.
Proof. intros H. by rewrite <- (sorted_Permutation l), H, sorted_Permutation. Qed.

Lemma sorted_nil l : sorted l = [] ↔ l = [].
Proof.
  split; [|by intros ->].
  intros H. apply Permutation_nil_r. by rewrite <- H, sorted_Permutation.
Qed.

Lemma Letters_sorted l : Letters l → Letters (sorted l).
Proof. unfold Letters. intros H. by rewrite sorted_Permutation. Qed.

Lemma Letters_chars s : Letters (chars s).
Proof. induction s; constructor; done. Qed.

Lemma join_cons s l : join (s :: l) = s +:+ join l.
Proof. done. Qed.

Lemma join_chars s : join (chars s) = s.
Proof. induction s as [|c s IH]; [done|]. cbn [chars]. by rewrite join_cons, IH. Qed.

Lemma chars_nil s : chars s = [] ↔ s = "".
Proof. by destruct s. Qed.

Lemma join_nil l : join l = "" ↔ Forall (λ s, s = "") l.
Proof.
  induction l as [|s l IH]; [done|]. rewrite join_cons, Forall_cons, <- IH.
  split; [apply str_app_eq_nil | by intros [-> ->]].
Qed.

Lemma Letters_join_nil l : Letters l → join l = "" ↔ l = [].
Proof.
  intros H. destruct H as [|s l Hs _]; [done|].
  split; [|done]. rewrite join_cons. intros [-> _]%str_app_eq_nil. done.
Qed.

Lemma Letters_join_inj l l' : Letters l → Letters l' → join l = join l' → l = l'.
Proof.
  intros H. revert l'. induction H as [|s l Hs Hl IH]; intros l' H' E.
  - symmetry. apply Letters_join_nil; done.
  - destruct H' as [|s' l' Hs' H'].
    + change (join []) with "" in E.
      apply (Letters_join_nil (s :: l)) in E; [done | by apply Forall_cons].
    + rewrite !join_cons in E.
      destruct s as [|c [|]]; [done | | done].
      destruct s' as [|c' [|]]; [done | | done].
      simpl in E. injection E as -> E. f_equal. by apply IH.
Qed.

(** ** Grading *)

Lemma user_answer_set i l self : user_answer (set_exam_answer i l self) i = join (sorted l).
Proof. unfold user_answer. cbn. by rewrite lookup_insert_eq. Qed.

Lemma grade_Some self i q l :
  exam_answers self !! i = Some l →
  grade self i q =
  if Str.is_empty (join (sorted l)) then Unanswered
  else if String.eqb (join (sorted l)) (correct_answer q) then Correct else Wrong.
Proof. intros H. unfold grade, user_answer. by rewrite H. Qed.

Lemma grade_None self i q : exam_answers self !! i = None → grade self i q = Unanswered.
Proof. intros H. unfold grade, user_answer. by rewrite H. Qed.

(** X9.  The order in which the options of a question are ticked does not
    matter to its mark: two selections with the same options, each as
    often, are marked alike. *)
Theorem grade_order self i q l l' :
  l ≡ₚ l' →
  grade (set_exam_answer i l self) i q = grade (set_exam_answer i l' self) i q.
Proof.
  intros H. unfold grade. by rewrite !user_answer_set, (sorted_perm l l' H).
Qed.

Lemma grade_order_witness :
  ["C"; "A"] ≡ₚ ["A"; "C"] ∧
  grade (set_exam_answer 1 ["C"; "A"] ExampleApp.exam) 1 ExampleApp.multi_question
  = grade (set_exam_answer 1 ["A"; "C"] ExampleApp.exam) 1 ExampleApp.multi_question.
Proof.
  assert (["C"; "A"] ≡ₚ ["A"; "C"]) as H by apply Permutation_swap.
  split; [exact H|]. apply grade_order. exact H.
Defined.

(** X10.  For a selection of single letters, as the option widgets give
    it, a question is marked as not answered exactly when nothing is
    selected, and as right exactly when something is selected and the
    selection has the letters of the answer, each as often as the answer
    has it, in any order.  A question without a stored selection is not
    answered. *)
Theorem grade_letters self i q :
  (∀ l, exam_answers self !! i = Some l → Letters l →
        (grade self i q = Unanswered ↔ l = []) ∧
        (grade self i q = Correct ↔ l ≠ [] ∧ l ≡ₚ chars (answer q))) ∧
  (exam_answers self !! i = None → grade self i q = Unanswered).
Proof.
  split; [|apply grade_None].
  intros l Hl HL. rewrite (grade_Some _ _ _ _ Hl).
  pose proof (Letters_sorted l HL) as HS.
  pose proof (Letters_join_nil _ HS) as Hnil. rewrite sorted_nil in Hnil.
  destruct (Str.is_empty (join (sorted l))) eqn:E.
  - apply is_empty_true in E. apply Hnil in E. split; [done|]. naive_solver.
  - apply is_empty_false in E. rewrite Hnil in E.
    unfold correct_answer. destruct (String.eqb_spec (join (sorted l))
      (join (sorted (chars (answer q))))) as [Heq|Hne].
    + split; [done|]. split; [|done]. intros _. split; [done|]. apply sorted_inj.
      apply Letters_join_inj; [done | apply Letters_sorted, Letters_chars | done].
    + split; [done|]. split; [done|].
      intros [_ HP]. destruct Hne. by rewrite (sorted_perm _ _ HP).
Qed.

Lemma grade_letters_witness :
  exam_answers ExampleApp.exam !! 1 = Some ["C"; "A"] ∧ Letters ["C"; "A"] ∧
  grade ExampleApp.exam 1 ExampleApp.multi_question = Correct ∧
  exam_answers ExampleApp.exam !! 2 = None ∧
  grade ExampleApp.exam 2 ExampleApp.multi_question = Unanswered.
Proof.
  assert (Letters ["C"; "A"]) as HL by (repeat constructor).
  destruct (grade_letters ExampleApp.exam 1 ExampleApp.multi_question) as [H _].
  destruct (H ["C"; "A"] eq_refl HL) as [_ Hc].
  destruct (grade_letters ExampleApp.exam 2 ExampleApp.multi_question) as [_ Hn].
  split_and!; [reflexivity | exact HL | | reflexivity | exact (Hn eq_refl)].
  apply Hc. split; [discriminate | apply Permutation_swap].
Defined.

(** X11.  A question whose record has no answer (no field [[T]], or an
    empty one) is never marked as right, whatever is selected. *)
Theorem grade_no_answer self i q :
  answer q = "" → grade self i q ≠ Correct.
Proof.
  intros Ha. unfold grade, correct_answer. rewrite Ha. cbn [chars].
  change (join (sorted [])) with "".
  destruct (Str.is_empty (user_answer self i)) eqn:E; [done|].
  apply is_empty_false in E.
  by destruct (String.eqb_spec (user_answer self i) "").
Qed.

Lemma grade_no_answer_witness :
  answer ExampleApp.open_question = "" ∧
  grade ExampleApp.exam 0 ExampleApp.open_question ≠ Correct.
Proof. split; [reflexivity|]. apply grade_no_answer. reflexivity. Defined.

(** ** Handing in *)

Lemma tally_fold self l t :
  fold_left (tally_step self) l t =
  mkTally (total t)
    (correct t + length (filter (λ iq, grade self iq.1 iq.2 = Correct) l))
    (wrong t + length (filter (λ iq, grade self iq.1 iq.2 = Wrong) l))
    (unanswered t + length (filter (λ iq, grade self iq.1 iq.2 = Unanswered) l)).
Proof.
  revert t. induction l as [|iq l IH]; intros t.
  - destruct t. cbn. f_equal; lia.
  - cbn [fold_left]. rewrite IH. unfold tally_step. rewrite !filter_cons.
    destruct (grade self iq.1 iq.2); repeat case_decide; try done;
      cbn; f_equal; lia.
Qed.

Lemma verdicts_length self (l : list (nat * Question)) :
  length (filter (λ iq, grade self iq.1 iq.2 = Correct) l)
  + length (filter (λ iq, grade self iq.1 iq.2 = Wrong) l)
  + length (filter (λ iq, grade self iq.1 iq.2 = Unanswered) l)
  = length l.
Proof.
  induction l as [|iq l IH]; [done|]. rewrite !filter_cons.
  destruct (grade self iq.1 iq.2); repeat case_decide; try done; cbn; lia.
Qed.

Lemma not_correct_length self (l : list (nat * Question)) :
  length (filter (λ iq, grade self iq.1 iq.2 ≠ Correct) l)
  = length (filter (λ iq, grade self iq.1 iq.2 = Wrong) l)
    + length (filter (λ iq, grade self iq.1 iq.2 = Unanswered) l).
Proof.
  induction l as [|iq l IH]; [done|]. rewrite !filter_cons.
  destruct (grade self iq.1 iq.2); repeat case_decide; try done; cbn; lia.
Qed.

Lemma elem_of_enumerate {A} (l : list A) i x : (i, x) ∈ enumerate l ↔ l !! i = Some x.
Proof.
  unfold enumerate. rewrite elem_of_lookup_imap. split.
  - by intros (j & y & [= -> ->] & H).
  - intros H. by exists i, x.
Qed.

Lemma tally_marked self :
  tally self = mkTally (length (current_questions self))
                 (length (marked self Correct)) (length (marked self Wrong))
                 (length (marked self Unanswered)).
Proof. unfold tally. by rewrite tally_fold. Qed.

Lemma tally_sum self :
  correct (tally self) + wrong (tally self) + unanswered (tally self)
  = total (tally self).
Proof.
  rewrite tally_marked. cbn [total correct wrong unanswered].
  unfold marked. rewrite verdicts_length. apply length_imap.
Qed.

(** X12.  The counters of [submit_exam] add up: every question of the
    examination is counted once, as right, as wrong or as not answered,
    and each counter is the number of questions with this mark. *)
Theorem tally_partition self :
  let t := tally self in
  total t = length (current_questions self) ∧
  correct t = length (marked self Correct) ∧
  wrong t = length (marked self Wrong) ∧
  unanswered t = length (marked self Unanswered) ∧
  correct t + wrong t + unanswered t = total t.
Proof.
  cbn zeta. split_and!; [by rewrite tally_marked..|]. apply tally_sum.
Qed.

Lemma wrong_fold self l acc :
  fold_left
    (λ wrong_questions (iq : nat * Question),
       let user_answer := user_answer self iq.1 in
       let correct_answer := correct_answer iq.2 in
       if Str.is_empty user_answer || negb (String.eqb user_answer correct_answer)
       then wrong_questions ++ [(iq.1, iq.2, user_answer, correct_answer)]
       else wrong_questions) l acc
  = acc ++ ((λ iq, (iq.1, iq.2, user_answer self iq.1, correct_answer iq.2))
              <$> filter (λ iq, grade self iq.1 iq.2 ≠ Correct) l).
Proof.
  revert acc. induction l as [|iq l IH]; intros acc.
  - cbn. by rewrite app_nil_r.
  - cbn [fold_left]. rewrite IH, filter_cons. unfold grade. cbn zeta.
    destruct (Str.is_empty (user_answer self iq.1)); cbn [orb].
    + rewrite decide_True by done. by rewrite fmap_cons, <- app_assoc.
    + destruct (String.eqb (user_answer self iq.1) (correct_answer iq.2)); cbn [negb].
      * by rewrite decide_False by (by intros []).
      * rewrite decide_True by done. by rewrite fmap_cons, <- app_assoc.
Qed.

(** X13.  The list of [show_wrong_questions] has the questions that are
    not marked as right, those not answered among them, in the order of
    the examination, each with its index, what was selected and what is
    right.  Its length is the sum of the counters for the wrong and the
    unanswered questions of [submit_exam], and it is empty, so that "all
    right" is shown, exactly when every question is counted as right. *)
Theorem show_wrong_questions_spec self :
  show_wrong_questions self
  = (λ iq, (iq.1, iq.2, user_answer self iq.1, correct_answer iq.2))
      <$> filter (λ iq, grade self iq.1 iq.2 ≠ Correct)
                 (enumerate (current_questions self)) ∧
  (∀ i q u c,
     (i, q, u, c) ∈ show_wrong_questions self ↔
     current_questions self !! i = Some q ∧ grade self i q ≠ Correct ∧
     u = user_answer self i ∧ c = correct_answer q) ∧
  length (show_wrong_questions self)
  = wrong (tally self) + unanswered (tally self) ∧
  (show_wrong_questions self = [] ↔ correct (tally self) = total (tally self)).
Proof.
  assert (show_wrong_questions self
          = (λ iq, (iq.1, iq.2, user_answer self iq.1, correct_answer iq.2))
              <$> filter (λ iq, grade self iq.1 iq.2 ≠ Correct)
                         (enumerate (current_questions self))) as E
    by (unfold show_wrong_questions; by rewrite wrong_fold).
  assert (length (show_wrong_questions self)
          = wrong (tally self) + unanswered (tally self)) as Hlen.
  { rewrite E, length_fmap, not_correct_length, tally_marked. done. }
  split_and!; [exact E | | exact Hlen |].
  - intros i q u c. rewrite E, list_elem_of_fmap. split.
    + intros ([j q'] & [= -> -> -> ->] & [Hg Hin%elem_of_enumerate]%list_elem_of_filter).
      done.
    + intros (Hq & Hg & -> & ->). exists (i, q). split; [done|].
      apply list_elem_of_filter. split; [done|]. by apply elem_of_enumerate.
  - pose proof (tally_sum self) as Hsum.
    rewrite <- length_zero_iff_nil, Hlen. lia.
Qed.

(** X14.  An examination is handed in once.  [submit_exam] leaves the
    examination mode and keeps the questions, the index and the
    selections; outside an examination, and so the second time, it does
    nothing and shows no result. *)
Theorem submit_exam_once self :
  exam_mode (submit_exam self).1 = false ∧
  current_questions (submit_exam self).1 = current_questions self ∧
  current_index (submit_exam self).1 = current_index self ∧
  exam_answers (submit_exam self).1 = exam_answers self ∧
  ((submit_exam self).2 = None ↔ exam_mode self = false) ∧
  submit_exam (submit_exam self).1 = ((submit_exam self).1, None).
Proof.
  unfold submit_exam. destruct (exam_mode self) eqn:E; cbn; rewrite ?E; cbn;
    split_and!; done.
Qed.

(** ** What the callbacks keep *)

Lemma list_remove_sublist x l : list_remove x l `sublist_of` l.
Proof.
  induction l as [|y l IH]; [done|]. cbn. case_decide.
  - by apply sublist_cons.
  - by apply sublist_skip.
Qed.

Lemma search_bank_nil self query :
  questions self = [] →
  search_by_keyword self query = [] ∧
  search_by_chapter self query = [] ∧
  search_by_id self query = [].
Proof.
  intros H. unfold search_by_keyword, search_by_chapter, search_by_id.
  rewrite H. by destruct (Str.is_empty query).
Qed.

Lemma do_search_bank_nil self text search_type :
  questions (bank self) = [] → do_search self text search_type = self.
Proof.
  intros H. unfold do_search.
  destruct (search_bank_nil (bank self) (Str.strip text) H) as (-> & -> & ->).
  destruct (Str.is_empty _); [done|]. by repeat destruct (String.eqb search_type _).
Qed.

Lemma Inv_init : Inv ExamApp_init.
Proof.
  unfold Inv. cbn. split_and!; try done. by right.
Qed.

Lemma Inv_start_sequential_mode self : Inv self → Inv (start_sequential_mode self).
Proof.
  intros HI. unfold start_sequential_mode.
  destruct (questions (bank self)) as [|q l] eqn:E; [done|].
  destruct HI as (Hb & Hm & Hs & Hsv & Hnd & Hk).
  unfold Inv. cbn. split_and!; try done. left. lia.
Qed.

Lemma Inv_submit_exam self : Inv self → Inv (submit_exam self).1.
Proof.
  intros HI. unfold submit_exam. destruct (exam_mode self) eqn:E; [|done].
  destruct HI as (Hb & Hm & Hs & Hsv & Hnd & Hk).
  unfold Inv. cbn. split_and!; try done.
  destruct Hb as [Hb|(_ & _ & Hb & _)]; [by left | congruence].
Qed.

Lemma Inv_prev_question self : Inv self → Inv (prev_question self).
Proof.
  intros HI. unfold prev_question.
  destruct (Nat.ltb_spec 0 (current_index self)) as [Hlt|Hge]; [|done].
  destruct HI as (Hb & Hm & Hs & Hsv & Hnd & Hk).
  unfold Inv. cbn. split_and!; try done. left. lia.
Qed.

Lemma Inv_next_question self submit : Inv self → Inv (next_question self submit).1.
Proof.
  intros HI. unfold next_question.
  destruct (Z.ltb_spec (Z.of_nat (current_index self))
              (Z.of_nat (length (current_questions self)) - 1)) as [Hlt|Hge].
  - destruct HI as (Hb & Hm & Hs & Hsv & Hnd & Hk).
    unfold Inv. cbn. split_and!; try done. left. lia.
  - destruct (exam_mode self), submit; try done. by apply Inv_submit_exam.
Qed.

Lemma Inv_set_exam_answer i l self :
  (i < length (current_questions self))%nat → NoDup l →
  Inv self → Inv (set_exam_answer i l self).
Proof.
  intros Hi Hl (Hb & Hm & Hs & Hsv & Hnd & Hk).
  unfold Inv. cbn. split_and!; try done.
  - intros j l'. rewrite lookup_insert. case_decide; [by intros [= <-] | apply Hnd].
  - intros He j. rewrite dom_insert_L, elem_of_union, elem_of_singleton.
    intros [->|Hj]; [done | by apply Hk].
Qed.

Lemma Inv_on_option_selected vars self opt :
  Inv self → ∃ self', on_option_selected vars self opt = Some self' ∧ Inv self'.
Proof.
  intros HI. unfold on_option_selected.
  destruct (exam_mode self) eqn:He; [|by eauto].
  assert (current_index self < length (current_questions self))%nat as Hi.
  { destruct HI as ([Hb|(_ & _ & Hb & _)] & _); [done | congruence]. }
  destruct (lookup_lt_is_Some_2 _ _ Hi) as [question Hq]. rewrite Hq. cbn [mbind option_bind].
  destruct (Nat.ltb 1 (String.length (answer question))).
  - set (self1 := if bool_decide (current_index self ∉ dom (exam_answers self))
                  then set_exam_answer (current_index self) [] self else self).
    assert (Inv self1) as HI1.
    { subst self1. case_bool_decide; [|done].
      apply Inv_set_exam_answer; [done | constructor | done]. }
    assert (current_index self1 = current_index self
            ∧ current_questions self1 = current_questions self) as [Ei Eq].
    { subst self1. by case_bool_decide. }
    rewrite Ei.
    assert (NoDup (default [] (exam_answers self1 !! current_index self))) as Hnd.
    { destruct (exam_answers self1 !! current_index self) as [l|] eqn:El; cbn.
      - destruct HI1 as (_ & _ & _ & _ & Hnd & _). by apply (Hnd _ _ El).
      - constructor. }
    destruct (in_option_vars vars opt); [|by eauto].
    destruct (option_var_get vars opt); case_bool_decide; try by eauto.
    + eexists. split; [done|]. apply Inv_set_exam_answer; [by rewrite Eq | | done].
      apply NoDup_app. split_and!; [done | | apply NoDup_singleton].
      intros x Hx ->%list_elem_of_singleton. done.
    + eexists. split; [done|]. apply Inv_set_exam_answer; [by rewrite Eq | | done].
      eapply sublist_NoDup; [done | apply list_remove_sublist].
  - destruct (radio_var_get vars) as [selected|]; [|by eauto].
    eexists. split; [done|]. apply Inv_set_exam_answer; [done | | done].
    destruct (Str.is_empty selected); [constructor | apply NoDup_singleton].
Qed.

Lemma Inv_clear_selection self :
  Inv self → ∃ self', clear_selection self = Some self' ∧ Inv self'.
Proof.
  intros HI. unfold clear_selection.
  assert (∃ o, match current_questions self with
               | [] => Some None
               | _ :: _ => Some <$> current_questions self !! current_index self
               end = Some o) as [o ->].
  { destruct HI as ([Hb|(Hb & _)] & _).
    - destruct (lookup_lt_is_Some_2 _ _ Hb) as [q Hq]. rewrite Hq.
      destruct (current_questions self); by eauto.
    - rewrite Hb. by eauto. }
  cbn [mbind option_bind].
  destruct (exam_mode self && _) eqn:E; [|by eauto].
  eexists. split; [done|].
  destruct HI as (Hb & Hm & Hs & Hsv & Hnd & Hk).
  unfold Inv. cbn. split_and!; try done.
  - intros i l [_ Hl]%lookup_delete_Some. by apply (Hnd _ _ Hl).
  - intros He i. rewrite dom_delete_L, elem_of_difference. intros [Hi _]. by apply Hk.
Qed.

Lemma Inv_back_from_search self : Inv self → Inv (back_from_search self).
Proof.
  intros HI. unfold back_from_search.
  destruct (before_search_state self) as [[l i]|] eqn:E;
    [|by apply Inv_start_sequential_mode].
  destruct (search_mode self) eqn:Es; [|by apply Inv_start_sequential_mode].
  destruct HI as (Hb & Hm & Hs & Hsv & Hnd & Hk).
  assert (exam_mode self = false) as He.
  { destruct (exam_mode self); [|done]. specialize (Hm eq_refl). congruence. }
  unfold Inv. cbn. rewrite ?He. split_and!; try done.
  - left. by apply Hsv.
  - intros l' i' [= <- <-]. by apply Hsv.
Qed.

Lemma Inv_do_search self text search_type : Inv self → Inv (do_search self text search_type).
Proof.
  intros HI.
  destruct (questions (bank self)) as [|q0 l0] eqn:Eb.
  { by rewrite do_search_bank_nil. }
  unfold do_search. destruct (Str.is_empty (Str.strip text)); [done|].
  match goal with |- Inv (match ?r with _ => _ end) => destruct r as [|q l] end; [done|].
  destruct HI as (Hb & Hm & Hs & Hsv & Hnd & Hk).
  assert (current_index self < length (current_questions self))%nat as Hi.
  { destruct Hb as [Hb|(_ & _ & _ & Hb)]; [done | congruence]. }
  unfold Inv. cbn. rewrite Eb. split_and!; try done.
  - left. lia.
  - intros _. destruct (search_mode self); cbn; [by apply Hs | by eauto].
  - intros l' i'. destruct (search_mode self); cbn; [apply Hsv | by intros [= <- <-]].
Qed.

Section AppFacts.

Context `{os : Os} `{sampler : Sampler}.

Lemma Inv_confirm_exam self entry rng : Inv self → Inv (confirm_exam self entry rng).
Proof.
  intros HI. unfold confirm_exam. destruct entry as [count|]; [|done].
  destruct (Z.leb_spec count 0) as [Hle|Hgt]; [done|].
  destruct (Z.ltb_spec (Z.of_nat (length (questions (bank self)))) count)
    as [Hlt|Hge]; [done|]. cbn [orb].
  destruct HI as (Hb & Hm & Hs & Hsv & Hnd & Hk).
  unfold Inv. cbn. split_and!; try done;
    first [ left; rewrite random_sample_length; lia
          | intros i l; by rewrite lookup_empty
          | intros _ i; by rewrite dom_empty_L ].
Qed.

Lemma Inv_after_load self filepath dir :
  Inv self → Inv (after_load self (load_from_file (bank self) filepath dir)).
Proof.
  intros HI. unfold after_load.
  destruct (load_from_file (bank self) filepath dir).2 eqn:E.
  - apply load_from_file_true in E.
    destruct HI as (Hb & Hm & Hs & Hsv & Hnd & Hk).
    unfold Inv. cbn. split_and!; try done. left.
    destruct (questions (load_from_file (bank self) filepath dir).1);
      [congruence | cbn; lia].
  - apply load_from_file_false in E.
    destruct HI as (Hb & Hm & Hs & Hsv & Hnd & Hk).
    unfold Inv. cbn. split_and!; try done.
    destruct Hb as [Hb|(H1 & H2 & H3 & H4)]; [by left | right].
    split_and!; [done..|]. destruct E as [E|[_ E]]; congruence.
Qed.

Lemma Inv_confirm_load self bank_file chosen :
  Inv self → Inv (confirm_load self bank_file chosen).
Proof.
  intros HI. unfold confirm_load.
  repeat match goal with
         | |- Inv (if ?b then _ else _) => destruct b
         | |- Inv (after_load _ _) => by apply Inv_after_load
         | |- Inv self => done
         end.
Qed.

Lemma Inv_step self e : Inv self → ∃ self', step self e = Some self' ∧ Inv self'.
Proof.
  intros HI. destruct e; cbn [step];
    first [ by apply Inv_on_option_selected
          | by apply Inv_clear_selection
          | eexists; split; [done|] ].
  - by apply Inv_confirm_load.
  - by apply Inv_start_sequential_mode.
  - by apply Inv_confirm_exam.
  - by apply Inv_do_search.
  - by apply Inv_back_from_search.
  - by apply Inv_prev_question.
  - by apply Inv_next_question.
  - by apply Inv_submit_exam.
Qed.

Lemma Inv_run events self : Inv self → ∃ self', run self events = Some self' ∧ Inv self'.
Proof.
  revert self. induction events as [|e events IH]; intros self HI; [by eauto|].
  destruct (Inv_step self e HI) as (self1 & E & HI1).
  cbn [run]. rewrite E. cbn [mbind option_bind]. by apply IH.
Qed.

End AppFacts.

(** ** Sessions *)

Section Sessions.

Context `{os : Os} `{sampler : Sampler}.

(** X15.  Whatever the user does, and in whatever order, no callback
    fails on an index out of range: after every sequence of callbacks the
    index points to a question of the list on display, or no question has
    ever been put on display, the index is 0 and the bank is empty.  So
    [show_answer] returns early only as long as nothing is on display. *)
Theorem callbacks_in_bounds events :
  ∃ self,
    run ExamApp_init events = Some self ∧
    ((current_index self < length (current_questions self))%nat ∨
     current_questions self = [] ∧ current_index self = 0 ∧
     questions (bank self) = []) ∧
    (show_answer self = None ↔ current_questions self = []).
Proof.
  destruct (Inv_run events ExamApp_init Inv_init) as (self & E & Hb & _).
  exists self. split; [done|]. split; [naive_solver|].
  unfold show_answer.
  destruct (current_questions self !! current_index self) as [q|] eqn:Hq.
  - split; [by destruct (_ && _)|]. intros Hn. by rewrite Hn in Hq.
  - split; [|done]. intros _. apply lookup_ge_None in Hq.
    destruct Hb as [Hb|(Hb & _)]; [lia | done].
Qed.

(** X16.  An examination and a search never go together: after every
    sequence of callbacks at most one of [exam_mode] and [search_mode]
    holds, so that [back_from_search] never restores into an examination.
    In a search there is a saved state with its index inside its list,
    and [back_from_search] puts just this state on display. *)
Theorem modes_exclusive events :
  ∃ self,
    run ExamApp_init events = Some self ∧
    ¬ (exam_mode self = true ∧ search_mode self = true) ∧
    (search_mode self = true →
     ∃ l i, before_search_state self = Some (l, i) ∧ (i < length l)%nat ∧
            current_questions (back_from_search self) = l ∧
            current_index (back_from_search self) = i ∧
            search_mode (back_from_search self) = false ∧
            exam_mode (back_from_search self) = false).
Proof.
  destruct (Inv_run events ExamApp_init Inv_init)
    as (self & E & _ & Hm & Hs & Hsv & _).
  exists self. split; [done|]. split.
  - intros [He Hse]. specialize (Hm He). congruence.
  - intros Hse. destruct (Hs Hse) as [[l i] Hl].
    exists l, i. unfold back_from_search. rewrite Hl, Hse. cbn.
    split_and!; [done | by apply Hsv | done..|].
    destruct (exam_mode self); [|done]. specialize (Hm eq_refl). congruence.
Qed.

(** X17.  After every sequence of callbacks no stored selection has an
    option twice, and in an examination every selection is stored under
    the index of one of its questions, so that [submit_exam] looks at
    each of them. *)
Theorem stored_selections events :
  ∃ self,
    run ExamApp_init events = Some self ∧
    (∀ i l, exam_answers self !! i = Some l → NoDup l) ∧
    (exam_mode self = true →
     ∀ i, i ∈ dom (exam_answers self) →
          is_Some (current_questions self !! i)).
Proof.
  destruct (Inv_run events ExamApp_init Inv_init)
    as (self & E & _ & _ & _ & _ & Hnd & Hk).
  exists self. split_and!; [done | done |].
  intros He i Hi. apply lookup_lt_is_Some_2. by apply Hk.
Qed.

Lemma browsing_step self e self' saved :
  browsing e = true → step self e = Some self' →
  search_mode self = true → exam_mode self = false →
  before_search_state self = saved →
  search_mode self' = true ∧ exam_mode self' = false ∧
  before_search_state self' = saved ∧ bank self' = bank self.
Proof.
  intros Hb Hstep Hs He Hsv. destruct e; try done; cbn [step] in Hstep.
  - injection Hstep as <-. unfold do_search.
    destruct (Str.is_empty _); [done|].
    match goal with |- context [match ?r with _ => _ end] => destruct r end;
      [done|]. cbn. by rewrite Hs.
  - unfold on_option_selected in Hstep. rewrite He in Hstep. by injection Hstep as <-.
  - unfold clear_selection in Hstep. rewrite He in Hstep.
    destruct (current_questions self) as [|q0 l0]; cbn in Hstep;
      [|destruct (_ !! _); cbn in Hstep]; by simplify_eq.
  - injection Hstep as <-. unfold prev_question. by destruct (Nat.ltb _ _).
  - injection Hstep as <-. unfold next_question. rewrite He.
    by destruct (Z.ltb _ _).
Qed.

Lemma browsing_run events self self' saved :
  Forall (λ e, browsing e = true) events → run self events = Some self' →
  search_mode self = true → exam_mode self = false →
  before_search_state self = saved →
  search_mode self' = true ∧ exam_mode self' = false ∧
  before_search_state self' = saved ∧ bank self' = bank self.
Proof.
  intros Hall. revert self. induction Hall as [|e events He _ IH];
    intros self Hrun Hs Hx Hsv.
  - by injection Hrun as <-.
  - cbn [run] in Hrun. destruct (step self e) as [self1|] eqn:E; [|done].
    cbn in Hrun.
    destruct (browsing_step self e self1 saved He E Hs Hx Hsv) as (H1 & H2 & H3 & H4).
    destruct (IH self1 Hrun H1 H2 H3) as (? & ? & ? & ?).
    split_and!; [done..|congruence].
Qed.

Lemma do_search_found self text search_type :
  search_mode self = false →
  search_mode (do_search self text search_type) = true →
  let found := do_search self text search_type in
  exam_mode found = false ∧ current_index found = 0 ∧
  before_search_state found = Some (current_questions self, current_index self) ∧
  bank found = bank self ∧ exam_answers found = exam_answers self.
Proof.
  intros Hs. unfold do_search.
  destruct (Str.is_empty _); [congruence|].
  match goal with |- context [match ?r with _ => _ end] => destruct r end;
    [congruence|]. cbn. by rewrite Hs.
Qed.

(** X18.  A search can be left as it was entered.  From a state outside a
    search, after a search that finds something, and then any further
    searches, steps to and fro and touching of options,
    [back_from_search] puts the list of questions and the index of before
    the first search back on display; the bank is the same, and no
    examination is on. *)
Theorem search_round_trip self text search_type events self' :
  search_mode self = false →
  search_mode (do_search self text search_type) = true →
  Forall (λ e, browsing e = true) events →
  run (do_search self text search_type) events = Some self' →
  current_questions (back_from_search self') = current_questions self ∧
  current_index (back_from_search self') = current_index self ∧
  search_mode (back_from_search self') = false ∧
  exam_mode (back_from_search self') = false ∧
  bank (back_from_search self') = bank self.
Proof.
  intros Hs Hfound Hall Hrun.
  destruct (do_search_found self text search_type Hs Hfound) as (He & _ & Hsv & Hb & _).
  destruct (browsing_run _ _ _ _ Hall Hrun Hfound He Hsv) as (H1 & H2 & H3 & H4).
  unfold back_from_search. rewrite H3, H1. cbn. split_and!; [done..|congruence].
Qed.

(** X19.  A search that finds something during an examination ends the
    examination without a result: the examination mode is off afterwards
    and stays off when the search is left, [submit_exam] then shows
    nothing, and a touched option is no longer stored; the selections
    made so far are kept. *)
Theorem search_ends_exam self text search_type vars opt :
  exam_mode self = true → search_mode self = false →
  search_mode (do_search self text search_type) = true →
  let found := do_search self text search_type in
  let back := back_from_search found in
  exam_mode found = false ∧ exam_answers found = exam_answers self ∧
  current_questions back = current_questions self ∧
  exam_mode back = false ∧
  submit_exam back = (back, None) ∧
  on_option_selected vars back opt = Some back.
Proof.
  intros He Hs Hfound found back.
  destruct (do_search_found self text search_type Hs Hfound) as (Hx & _ & Hsv & _ & Ha).
  fold found in Hx, Hsv, Ha, Hfound.
  assert (back = mkExamApp (bank found) (current_questions self) (current_index self)
                   false (exam_answers found) false (before_search_state found)) as ->.
  { subst back. unfold back_from_search. by rewrite Hsv, Hfound, Hx. }
  by split_and!.
Qed.

End Sessions.

Lemma search_round_trip_witness :
  let found := do_search ExampleApp.browse " lk " "id" in
  let events := [NextQuestion true; DoSearch "1.2" "chapter"; PrevQuestion;
                 OptionSelected (ExampleApp.ticks ["A"]) "A"] in
  search_mode ExampleApp.browse = false ∧ search_mode found = true ∧
  Forall (λ e, browsing e = true) events ∧
  ∃ self',
    run (os := Example.sample_os) (sampler := ExampleApp.first_sampler)
        found events = Some self' ∧
    current_questions self' = [Example.sample_question] ∧
    current_questions (back_from_search self') = current_questions ExampleApp.browse ∧
    current_index (back_from_search self') = 1.
Proof.
  intros found events.
  assert (Forall (λ e, browsing e = true) events) as Hall by (by repeat constructor).
  split_and!; [reflexivity | reflexivity | exact Hall |].
  eexists. split; [reflexivity|]. split; [reflexivity|].
  destruct (search_round_trip (os := Example.sample_os)
              (sampler := ExampleApp.first_sampler)
              ExampleApp.browse " lk " "id" events _ eq_refl eq_refl Hall eq_refl)
    as (H1 & H2 & _).
  split; [exact H1 | exact H2].
Defined.

Lemma search_ends_exam_witness :
  let found := do_search ExampleApp.exam "mc" "id" in
  let back := back_from_search found in
  exam_mode ExampleApp.exam = true ∧ search_mode ExampleApp.exam = false ∧
  search_mode found = true ∧
  exam_mode back = false ∧ submit_exam back = (back, None).
Proof.
  intros found back.
  destruct (search_ends_exam ExampleApp.exam "mc" "id" (ExampleApp.ticks []) "A"
              eq_refl eq_refl eq_refl) as (_ & _ & _ & H1 & H2 & _).
  split_and!; [reflexivity | reflexivity | reflexivity | exact H1 | exact H2].
Defined.

(** ** The search dialog *)






(** ** Starting an examination *)

Lemma tally_no_answers self :
  exam_answers self = ∅ →
  tally self = mkTally (length (current_questions self)) 0 0
                       (length (current_questions self)).
Proof.
  intros Ha. rewrite tally_marked. unfold marked.
  assert (∀ iq : nat * Question, grade self iq.1 iq.2 = Unanswered) as Hg.
  { intros iq. apply grade_None. by rewrite Ha, lookup_empty. }
  assert (∀ l : list (nat * Question),
            length (filter (λ iq, grade self iq.1 iq.2 = Correct) l) = 0
            ∧ length (filter (λ iq, grade self iq.1 iq.2 = Wrong) l) = 0
            ∧ length (filter (λ iq, grade self iq.1 iq.2 = Unanswered) l) = length l)
    as Hl.
  { induction l as [|iq l (IH1 & IH2 & IH3)]; [done|]. rewrite !filter_cons, Hg.
    repeat case_decide; try done. cbn. by rewrite IH3. }
  destruct (Hl (enumerate (current_questions self))) as (-> & -> & ->).
  unfold enumerate. by rewrite length_imap.
Qed.

Section Starting.

Context `{sampler : Sampler}.

(** X21.  [confirm_exam] starts an examination exactly when the entry is
    a number from 1 to the size of the bank.  The examination then has
    this number of questions, drawn from the bank without taking any
    place of the bank twice, it begins at the first of them with no
    selection stored, so that handing in at once counts every question
    as not answered.  Any other entry changes nothing. *)
Theorem confirm_exam_spec self rng :
  confirm_exam self None rng = self ∧
  (∀ count,
     (count ≤ 0 ∨ Z.of_nat (length (questions (bank self))) < count)%Z →
     confirm_exam self (Some count) rng = self) ∧
  (∀ count,
     (1 ≤ count ≤ Z.of_nat (length (questions (bank self))))%Z →
     let self' := confirm_exam self (Some count) rng in
     exam_mode self' = true ∧ search_mode self' = false ∧
     current_index self' = 0 ∧ exam_answers self' = ∅ ∧
     bank self' = bank self ∧
     length (current_questions self') = Z.to_nat count ∧
     current_questions self' ⊆+ questions (bank self) ∧
     (submit_exam self').2
     = Some (mkTally (Z.to_nat count) 0 0 (Z.to_nat count))).
Proof.
  split_and!; [done | |].
  - intros count Hc. unfold confirm_exam.
    destruct (Z.leb_spec count 0); [done|].
    destruct (Z.ltb_spec (Z.of_nat (length (questions (bank self)))) count); [done|].
    lia.
  - intros count Hc. unfold confirm_exam.
    destruct (Z.leb_spec count 0); [lia|].
    destruct (Z.ltb_spec (Z.of_nat (length (questions (bank self)))) count); [lia|].
    cbn [orb]. cbn zeta.
    assert (Z.to_nat count ≤ length (questions (bank self)))%nat as Hle by lia.
    pose proof (random_sample_length rng _ _ Hle) as Hlen.
    cbn [exam_mode search_mode current_index exam_answers bank current_questions].
    split_and!; [done.. | by apply random_sample_submseteq |].
    unfold submit_exam. cbn [exam_mode negb snd]. f_equal.
    rewrite tally_no_answers by done. cbn [current_questions]. by rewrite Hlen.
Qed.

End Starting.

Lemma confirm_exam_spec_witness :
  ((0 ≤ 0 ∨ Z.of_nat (length (questions (bank ExampleApp.browse))) < 0)%Z ∧
   confirm_exam (sampler := ExampleApp.first_sampler) ExampleApp.browse (Some 0%Z) 1
   = ExampleApp.browse) ∧
  ((1 ≤ 2 ≤ Z.of_nat (length (questions (bank ExampleApp.browse))))%Z ∧
   let self' := confirm_exam (sampler := ExampleApp.first_sampler)
                  ExampleApp.browse (Some 2%Z) 1 in
   length (current_questions self') = 2 ∧
   (submit_exam self').2 = Some (mkTally 2 0 0 2)).
Proof.
  destruct (confirm_exam_spec (sampler := ExampleApp.first_sampler) ExampleApp.browse 1)
    as (_ & H1 & H2).
  assert (0 ≤ 0 ∨ Z.of_nat (length (questions (bank ExampleApp.browse))) < 0)%Z
    as Ha by (left; lia).
  assert (1 ≤ 2 ≤ Z.of_nat (length (questions (bank ExampleApp.browse))))%Z
    as Hb by (cbn; lia).
  split; [split; [exact Ha | exact (H1 _ Ha)]|]. split; [exact Hb|].
  destruct (H2 _ Hb) as (_ & _ & _ & _ & _ & H3 & _ & H4).
  split; [exact H3 | exact H4].
Defined.

(** ** Loading from the dialog *)

Section Loading.

Context `{os : Os}.

Lemma confirm_load_custom self filepath :
  filepath ≠ "" →
  ∃ dir, confirm_load self "CUSTOM" filepath
         = after_load self (load_from_file (bank self) filepath (Some dir)).
Proof.
  intros Hf%is_empty_false. unfold confirm_load.
  change (Str.is_empty "CUSTOM") with false.
  change (String.eqb "CUSTOM" "CUSTOM") with true. cbv iota.
  rewrite Hf. cbn [negb]. by eexists.
Qed.

(** X22.  A file that is read and has no record with a question body,
    chosen as a bank of the user's own, empties the bank and leaves the
    display as it is: the questions shown, the index and the mode stay.
    From then on [start_sequential_mode], [do_search] and [confirm_exam]
    do nothing, until a bank is loaded. *)
Theorem confirm_load_without_records `{sampler : Sampler} self filepath content :
  filepath ≠ "" →
  read_text filepath = Some content →
  Forall (λ chunk, field_value "Q" chunk = "") (findall_J content) →
  let self' := confirm_load self "CUSTOM" filepath in
  questions (bank self') = [] ∧
  current_questions self' = current_questions self ∧
  current_index self' = current_index self ∧
  exam_mode self' = exam_mode self ∧
  search_mode self' = search_mode self ∧
  start_sequential_mode self' = self' ∧
  (∀ text search_type, do_search self' text search_type = self') ∧
  (∀ entry rng, confirm_exam self' entry rng = self').
Proof.
  intros Hf Hread Hall self'.
  destruct (confirm_load_custom self filepath Hf) as (dir & E).
  subst self'. rewrite E. clear E.
  destruct (load_from_file_read (bank self) filepath (Some dir) content Hread)
    as (Er & _ & Eq).
  assert (questions (load_from_file (bank self) filepath (Some dir)).1 = []) as Hnil.
  { rewrite Eq. clear Eq Er. induction Hall as [|chunk chunks Hc _ IH]; [done|].
    cbn [omap list_omap]. by rewrite (proj2 (parse_question_None _ chunk) Hc). }
  assert ((load_from_file (bank self) filepath (Some dir)).2 = false) as Hfalse.
  { destruct (load_from_file (bank self) filepath (Some dir)).2 eqn:E2; [|done].
    by apply load_from_file_true in E2. }
  unfold after_load. rewrite Hfalse.
  cbn [bank current_questions current_index exam_mode search_mode].
  split_and!; [done..| | |].
  - unfold start_sequential_mode. cbn [bank]. by rewrite Hnil.
  - intros text search_type. by apply do_search_bank_nil.
  - intros [count|] rng; [|done]. unfold confirm_exam. cbn [bank]. rewrite Hnil.
    cbn [length]. destruct (Z.leb_spec count 0); [done|].
    destruct (Z.ltb_spec (Z.of_nat 0) count); [done | lia].
Qed.

End Loading.

Lemma confirm_load_without_records_witness :
  let self' := confirm_load (os := Example.sample_os) ExampleApp.browse
                 "CUSTOM" "/bank/empty.txt" in
  "/bank/empty.txt" ≠ "" ∧
  read_text (Os := Example.sample_os) "/bank/empty.txt" = Some "no record here" ∧
  Forall (λ chunk, field_value "Q" chunk = "") (findall_J "no record here") ∧
  questions (bank self') = [] ∧
  current_questions self' = questions ExampleApp.two_bank ∧
  start_sequential_mode self' = self'.
Proof.
  intros self'.
  assert (Forall (λ chunk, field_value "Q" chunk = "") (findall_J "no record here"))
    as Hall by constructor.
  destruct (confirm_load_without_records (os := Example.sample_os)
              (sampler := ExampleApp.first_sampler) ExampleApp.browse
              "/bank/empty.txt" "no record here") as (H1 & H2 & _ & _ & _ & H3 & _);
    [discriminate | reflexivity | exact Hall |].
  split_and!; [discriminate | reflexivity | exact Hall | exact H1 | exact H2 | exact H3].
Defined.

(** ** Showing the answer *)

Lemma correct_answer_nil q : correct_answer q = "" ↔ answer q = "".
Proof.
  unfold correct_answer.
  rewrite (Letters_join_nil _ (Letters_sorted _ (Letters_chars (answer q)))).
  by rewrite sorted_nil, chars_nil.
Qed.

(** X23.  In an examination, for a question with a stored selection,
    [show_answer] shows the selection and calls it right exactly when
    [submit_exam] counts the question as right, as long as something is
    selected.  A stored empty selection, which [submit_exam] counts as
    not answered, is called right when the record has no answer, and
    wrong otherwise.  Outside an examination, and without a stored
    selection, only the answer is shown. *)
Theorem show_answer_mark self q :
  current_questions self !! current_index self = Some q →
  let i := current_index self in
  (exam_mode self = true → i ∈ dom (exam_answers self) →
   ∃ ok,
     show_answer self = Some (answer q, Some (user_answer self i, ok)) ∧
     (user_answer self i ≠ "" → ok = true ↔ grade self i q = Correct) ∧
     (user_answer self i = "" →
      grade self i q = Unanswered ∧ (ok = true ↔ answer q = ""))) ∧
  (exam_mode self = false ∨ i ∉ dom (exam_answers self) →
   show_answer self = Some (answer q, None)).
Proof.
  intros Hq i. subst i. unfold show_answer. rewrite Hq. split.
  - intros He Hi. rewrite He, bool_decide_eq_true_2 by done. cbn [andb].
    eexists. split; [done|]. unfold grade. split.
    + intros Hu%is_empty_false. rewrite Hu.
      by destruct (String.eqb _ _).
    + intros Hu. rewrite Hu. split; [done|]. rewrite <- correct_answer_nil.
      destruct (String.eqb_spec "" (correct_answer q)); naive_solver.
  - intros [He|Hi].
    + by rewrite He.
    + rewrite (bool_decide_eq_false_2 _ Hi). by rewrite andb_false_r.
Qed.

Lemma show_answer_mark_witness :
  current_questions ExampleApp.exam !! current_index ExampleApp.exam
  = Some ExampleApp.multi_question ∧
  exam_mode ExampleApp.exam = true ∧
  current_index ExampleApp.exam ∈ dom (exam_answers ExampleApp.exam) ∧
  show_answer ExampleApp.exam = Some ("AC", Some ("AC", true)) ∧
  show_answer (submit_exam ExampleApp.exam).1 = Some ("AC", None).
Proof.
  assert (current_index ExampleApp.exam ∈ dom (exam_answers ExampleApp.exam)) as Hi.
  { apply elem_of_dom. by eexists. }
  split_and!; [reflexivity | reflexivity | exact Hi | reflexivity |].
  destruct (show_answer_mark (submit_exam ExampleApp.exam).1
              ExampleApp.multi_question eq_refl) as [_ H].
  apply H. by left.
Defined.

(** ** Touching the options *)







Lemma clear_selection_Some self :
  (current_questions self = [] ∨
   (current_index self < length (current_questions self))%nat) →
  clear_selection self
  = Some (if exam_mode self
             && bool_decide (current_index self ∈ dom (exam_answers self))
          then mkExamApp (bank self) (current_questions self) (current_index self)
                 (exam_mode self) (delete (current_index self) (exam_answers self))
                 (search_mode self) (before_search_state self)
          else self).
Proof.
  intros H. unfold clear_selection.
  destruct (current_questions self) as [|q0 l0] eqn:E.
  - cbn. by destruct (_ && _).
  - destruct H as [H|H]; [done|].
    destruct (lookup_lt_is_Some_2 _ _ H) as [q Hq]. rewrite Hq. cbn.
    by destruct (_ && _).
Qed.

Lemma index_errors_aux self :
  (clear_selection self = None →
   current_questions self ≠ [] ∧
   (length (current_questions self) ≤ current_index self)%nat) ∧
  (current_questions self ≠ [] →
   (length (current_questions self) ≤ current_index self)%nat →
   clear_selection self = None).
Proof.
  split.
  - intros H. destruct (decide (current_questions self = [])) as [Hn|Hn].
    + by rewrite clear_selection_Some in H by (by left).
    + split; [done|]. apply Nat.nlt_ge. intros Hi.
      by rewrite clear_selection_Some in H by (by right).
  - intros Hn Hi. unfold clear_selection.
    destruct (current_questions self); [done|].
    by rewrite (proj2 (lookup_ge_None _ _) Hi).
Qed.

(** X25.  The two callbacks that read the question under the index fail
    on an index out of range, and on nothing else: [on_option_selected]
    in an examination, [clear_selection] whenever some question is on
    display. *)
Theorem index_errors vars self opt :
  (on_option_selected vars self opt = None ↔
   exam_mode self = true ∧
   (length (current_questions self) ≤ current_index self)%nat) ∧
  (clear_selection self = None ↔
   current_questions self ≠ [] ∧
   (length (current_questions self) ≤ current_index self)%nat).
Proof.
  split.
  - unfold on_option_selected. destruct (exam_mode self); [|naive_solver].
    destruct (current_questions self !! current_index self) as [q|] eqn:Hq.
    + apply lookup_lt_Some in Hq. cbn [mbind option_bind]. split; [|lia].
      intros H. exfalso. revert H.
      destruct (Nat.ltb _ _), (in_option_vars vars opt), (option_var_get vars opt),
        (radio_var_get vars); repeat case_bool_decide; done.
    + apply lookup_ge_None in Hq. done.
  - destruct (index_errors_aux self) as [H1 H2]. split; [exact H1|].
    intros [Hn Hi]. by apply H2.
Qed.

(** X26.  [clear_selection], when it does not fail, keeps the display;
    in an examination it takes the stored selection of the question on
    display away and leaves those of the other questions, so that the
    question counts as not answered; outside an examination it changes
    nothing. *)
Theorem clear_selection_spec self self' :
  clear_selection self = Some self' →
  current_questions self' = current_questions self ∧
  current_index self' = current_index self ∧
  exam_mode self' = exam_mode self ∧
  (exam_mode self = true →
   exam_answers self' = delete (current_index self) (exam_answers self) ∧
   ∀ q, grade self' (current_index self) q = Unanswered) ∧
  (exam_mode self = false → self' = self).
Proof.
  intros H.
  assert (current_questions self = [] ∨
          (current_index self < length (current_questions self))%nat) as Hb.
  { destruct (decide (current_questions self = [])) as [|Hn]; [by left | right].
    destruct (index_errors_aux self) as [_ Hc].
    destruct (decide (current_index self < length (current_questions self))%nat)
      as [|Hge]; [done|].
    rewrite Hc in H; [done | done | lia]. }
  rewrite (clear_selection_Some _ Hb) in H. injection H as <-.
  destruct (exam_mode self) eqn:He; cbn [andb].
  - case_bool_decide as Hd; cbn.
    + split_and!; [done.. | | done]. intros _. split; [done|].
      intros q. apply grade_None. cbn. apply lookup_delete_eq.
    + apply not_elem_of_dom in Hd.
      split_and!; [done.. | | done]. intros _.
      split; [by rewrite delete_id|]. intros q. by apply grade_None.
  - by split_and!.
Qed.

Lemma clear_selection_spec_witness :
  ∃ self',
    clear_selection ExampleApp.exam = Some self' ∧
    exam_mode ExampleApp.exam = true ∧
    exam_answers self' = delete 1 (exam_answers ExampleApp.exam) ∧
    grade self' 1 ExampleApp.multi_question = Unanswered.
Proof.
  eexists. split; [reflexivity|].
  destruct (clear_selection_spec ExampleApp.exam _ eq_refl) as (_ & _ & _ & H & _).
  destruct (H eq_refl) as [H1 H2].
  split_and!; [reflexivity | exact H1 | exact (H2 _)].
Defined.

Lemma sorted_singleton s : sorted [s] = [s].
Proof. done. Qed.

Lemma join_singleton s : join [s] = s.
Proof. unfold join. cbn. apply str_app_nil_r. Qed.

Lemma correct_answer_short q :
  (String.length (answer q) ≤ 1)%nat → correct_answer q = answer q.
Proof.
  unfold correct_answer. destruct (answer q) as [|c [|d s]]; cbn [String.length chars].
  - done.
  - intros _. by rewrite sorted_singleton, join_singleton.
  - lia.
Qed.

(** X27.  In an examination, on a question with at most one right option,
    [on_option_selected] stores what the radio buttons hold, in place of
    any selection stored before: nothing for the empty value, else the
    one value.  The question is then counted as right exactly when this
    value is the answer of the record, and as not answered exactly when
    the value is empty. *)
Theorem single_choice vars self opt q selected :
  exam_mode self = true →
  current_questions self !! current_index self = Some q →
  (String.length (answer q) ≤ 1)%nat →
  radio_var_get vars = Some selected →
  ∃ self',
    on_option_selected vars self opt = Some self' ∧
    exam_answers self' !! current_index self
    = Some (if Str.is_empty selected then [] else [selected]) ∧
    (∀ j, j ≠ current_index self → exam_answers self' !! j = exam_answers self !! j) ∧
    (grade self' (current_index self) q = Correct ↔
     selected ≠ "" ∧ selected = answer q) ∧
    (grade self' (current_index self) q = Unanswered ↔ selected = "").
Proof.
  intros He Hq Hs Hr. unfold on_option_selected. rewrite He, Hq.
  cbn [mbind option_bind].
  assert (Nat.ltb 1 (String.length (answer q)) = false) as -> by (apply Nat.ltb_ge; lia).
  rewrite Hr. eexists. split; [done|].
  split; [cbn; by rewrite lookup_insert_eq|].
  split; [intros j Hj; cbn; by rewrite lookup_insert_ne|].
  unfold grade. rewrite user_answer_set, (correct_answer_short q Hs).
  destruct selected as [|c s]; cbn [Str.is_empty].
  - change (join (sorted [])) with "". cbn [Str.is_empty].
    split; [split; [done | by intros []] | done].
  - rewrite sorted_singleton, join_singleton. cbn [Str.is_empty].
    destruct (String.eqb_spec (String c s) (answer q)); naive_solver.
Qed.

Lemma single_choice_witness :
  let self := mkExamApp ExampleApp.two_bank (questions ExampleApp.two_bank) 0 true
                {[ 0 := ["B"] ]} false None in
  let vars := mkOptionVars (λ _, true) (λ _, true) (Some "A") in
  exam_mode self = true ∧
  current_questions self !! current_index self = Some Example.sample_question ∧
  (String.length (answer Example.sample_question) ≤ 1)%nat ∧
  ∃ self',
    on_option_selected vars self "A" = Some self' ∧
    exam_answers self' !! 0 = Some ["A"] ∧
    grade self' 0 Example.sample_question = Correct.
Proof.
  intros self vars.
  assert (String.length (answer Example.sample_question) ≤ 1)%nat as Hs by (cbn; lia).
  split_and!; [reflexivity | reflexivity | exact Hs |].
  destruct (single_choice vars self "A" Example.sample_question "A"
              eq_refl eq_refl Hs eq_refl) as (self' & H1 & H2 & _ & H3 & _).
  exists self'. split_and!; [exact H1 | exact H2 |].
  apply H3. split; [discriminate | reflexivity].
Defined.

(** ** Stepping through the questions *)

Lemma next_question_index self submit :
  current_questions (next_question self submit).1 = current_questions self ∧
  current_index (next_question self submit).1
  = (if (Z.of_nat (current_index self)
         <? Z.of_nat (length (current_questions self)) - 1)%Z
     then current_index self + 1 else current_index self).
Proof.
  unfold next_question. destruct (Z.ltb _ _); [done|].
  destruct (exam_mode self) eqn:He, submit; try done.
  unfold submit_exam. by rewrite He.
Qed.

(** X28.  With a question on display, "next" pressed [n] times goes [n]
    questions on and stops at the last one, whether or not an examination
    is handed in on the way; the list on display stays.  "Next" and then
    "previous" comes back to the same state, unless the last question is
    on display; "previous" and then "next" comes back to it, unless the
    first one is; and "previous" at the first question does nothing. *)
Theorem stepping self submit :
  (current_index self < length (current_questions self))%nat →
  (∀ n,
     current_questions (next_times n submit self) = current_questions self ∧
     current_index (next_times n submit self)
     = Nat.min (current_index self + n) (length (current_questions self) - 1)) ∧
  ((current_index self + 1 < length (current_questions self))%nat →
   prev_question (next_question self submit).1 = self) ∧
  ((0 < current_index self)%nat →
   (next_question (prev_question self) submit).1 = self) ∧
  (current_index self = 0 → prev_question self = self).
Proof.
  intros Hi. split_and!.
  - intros n. revert self Hi. induction n as [|n IH]; intros self Hi.
    + cbn [next_times]. split; [done | lia].
    + cbn [next_times].
      destruct (next_question_index self submit) as [Eq Ei].
      destruct (IH (next_question self submit).1) as [IHq IHi].
      { rewrite Eq, Ei. destruct (Z.ltb_spec (Z.of_nat (current_index self))
          (Z.of_nat (length (current_questions self)) - 1)); lia. }
      rewrite IHq, IHi, Eq, Ei. split; [done|].
      destruct (Z.ltb_spec (Z.of_nat (current_index self))
                  (Z.of_nat (length (current_questions self)) - 1)); lia.
  - intros Hlt. unfold next_question.
    destruct (Z.ltb_spec (Z.of_nat (current_index self))
                (Z.of_nat (length (current_questions self)) - 1)); [|lia].
    unfold prev_question. cbn -[Nat.ltb Z.ltb Nat.add Nat.sub].
    destruct (Nat.ltb_spec 0 (current_index self + 1)); [|lia].
    destruct self. cbn. f_equal. lia.
  - intros Hgt. unfold prev_question.
    destruct (Nat.ltb_spec 0 (current_index self)); [|lia].
    unfold next_question. cbn -[Nat.ltb Z.ltb Nat.add Nat.sub Z.of_nat Z.sub].
    destruct (Z.ltb_spec (Z.of_nat (current_index self - 1))
                (Z.of_nat (length (current_questions self)) - 1)); [|lia].
    destruct self. cbn in *. f_equal. lia.
  - intros H0. unfold prev_question. by rewrite H0.
Qed.

Lemma stepping_witness :
  let self := mkExamApp ExampleApp.two_bank (questions ExampleApp.two_bank) 0 false
                ∅ false None in
  (current_index self < length (current_questions self))%nat ∧
  current_index (next_times 5 true self) = 1 ∧
  ((current_index self + 1 < length (current_questions self))%nat ∧
   prev_question (next_question self true).1 = self) ∧
  ((0 < current_index ExampleApp.browse)%nat ∧
   (next_question (prev_question ExampleApp.browse) true).1 = ExampleApp.browse) ∧
  (current_index self = 0 ∧ prev_question self = self).
Proof.
  intros self.
  assert (current_index self < length (current_questions self))%nat as Hi by (cbn; lia).
  assert (current_index ExampleApp.browse
          < length (current_questions ExampleApp.browse))%nat as Hb by (cbn; lia).
  destruct (stepping self true Hi) as (H1 & H2 & _ & H4).
  destruct (stepping ExampleApp.browse true Hb) as (_ & _ & H3 & _).
  split; [exact Hi|]. split; [exact (proj2 (H1 5))|].
  split; [split; [cbn; lia | apply H2; cbn; lia]|].
  split; [split; [cbn; lia | apply H3; cbn; lia]|].
  split; [reflexivity | exact (H4 eq_refl)].
Defined.

(** ** The outcomes of a load from the dialog *)

Section LoadOutcomes.

Context `{os : Os}.



End LoadOutcomes.


(** ** The text of a question *)

Lemma str_take_length n s : String.length (str_take n s) = Nat.min n (String.length s).
Proof.
  revert s. induction n as [|n IH]; intros [|c s]; cbn; try done. by rewrite IH.
Qed.

Lemma str_take_all n s : (String.length s ≤ n)%nat → str_take n s = s.
Proof.
  revert s. induction n as [|n IH]; intros [|c s]; cbn; try done; [lia|].
  intros H. rewrite IH; [done | lia].
Qed.

Lemma str_take_prefix n s : ∃ rest, s = str_take n s +:+ rest.
Proof.
  revert s. induction n as [|n IH]; intros [|c s]; cbn; try by eexists.
  destruct (IH s) as [rest E]. exists rest. by rewrite <- E.
Qed.

(** X30.  The text of a question, [Question.__str__], is the public
    number in brackets, a blank, the first 50 characters of the body and
    three dots: a body of up to 50 characters is there in full, a longer
    one is cut to a prefix of 50.  For a question of a bank that has been
    loaded the brackets are empty. *)
Theorem Question_str_spec :
  (∀ q,
     String.length (Question_str q)
     = String.length (j_id q) + Nat.min 50 (String.length (question q)) + 6) ∧
  (∀ q, (String.length (question q) ≤ 50)%nat →
        Question_str q = "[" +:+ j_id q +:+ "] " +:+ question q +:+ "...") ∧
  (∀ q, ∃ head rest,
        question q = head +:+ rest ∧
        String.length head = Nat.min 50 (String.length (question q)) ∧
        Question_str q = "[" +:+ j_id q +:+ "] " +:+ head +:+ "...") ∧
  (∀ (os : Os) self filepath dir content q,
     read_text filepath = Some content →
     q ∈ questions (load_from_file self filepath dir).1 →
     Str.starts_with "[] " (Question_str q) = true).
Proof.
  split_and!.
  - intros q. unfold Question_str. rewrite !str_app_length, str_take_length. cbn. lia.
  - intros q H. unfold Question_str. by rewrite str_take_all.
  - intros q. destruct (str_take_prefix 50 (question q)) as [rest E].
    exists (str_take 50 (question q)), rest.
    split_and!; [done | apply str_take_length | done].
  - intros os self filepath dir content q Hread Hq.
    pose proof (load_j_id_empty self filepath dir content Hread) as Hall.
    rewrite Forall_forall in Hall. unfold Question_str. by rewrite (Hall q Hq).
Qed.

Lemma Question_str_spec_witness :
  ((String.length (question Example.sample_question) ≤ 50)%nat ∧
   Question_str Example.sample_question = "[] What is X?...") ∧
  (read_text (Os := Example.sample_os) "/bank/tk.txt" = Some Example.sample ∧
   Example.sample_question
   ∈ questions (load_from_file (os := Example.sample_os) QuestionBank_init
                  "/bank/tk.txt" (Some "/media")).1 ∧
   Str.starts_with "[] " (Question_str Example.sample_question) = true).
Proof.
  destruct Question_str_spec as (_ & H1 & _ & H2).
  assert (String.length (question Example.sample_question) ≤ 50)%nat as Hs
    by (cbn; lia).
  assert (Example.sample_question
          ∈ questions (load_from_file (os := Example.sample_os) QuestionBank_init
                         "/bank/tk.txt" (Some "/media")).1) as Hq by (by left).
  split; [split; [exact Hs | exact (H1 _ Hs)]|].
  split_and!; [reflexivity | exact Hq |].
  exact (H2 Example.sample_os QuestionBank_init "/bank/tk.txt" (Some "/media")
            Example.sample _ eq_refl Hq).
Defined.
